(** * Waveform generators of [plotting/plottest.py]

    The script computes four periodic waveforms (sine, sawtooth, square,
    triangle) of a MIDI pitch, each a closed formula on Python floats.  The
    development reads the script twice.

    The first reading ([PyFloat], [Plottest]) takes a float as a real
    number: [math.pi] is [PI], [math.tau] is [2 * PI], [math.sin] is [sin]
    and [2 ** x] is [Rpower 2 x].  It carries the properties of the clamp
    of the square wave and of the two plotted series.

    The second reading ([Binary64], [Py64], [Plottest64]) takes a float as
    an IEEE binary64 value: a finite real that every operation rounds to
    nearest even, the two infinities and NaN.  Python's operators are
    modelled with their error paths ([ZeroDivisionError] of [/] and [%],
    [OverflowError] of [**], [ValueError] of [math.sin]).  The two
    functions of the C library that the script reaches, [pow] with base
    2.0 and [sin], are parameters; what is assumed of them is collected in
    [libm_ok], and a correctly rounded library meets it.  The two zeros of
    binary64 are identified: the script never divides by a zero and no
    comparison tells them apart.  A finite float is written [Fin x]; the
    statements quantify over every real [x], which covers every double. *)

From Stdlib Require Import Reals Lra Lia ZArith Bool List.

Local Open Scope R_scope.

(** ** Python's float primitives *)

Module PyFloat.

(** [math.tau] *)
Definition tau : R := 2 * PI.

(** Boolean value of the comparison [a < b]. *)
Definition Rltb (a b : R) : bool := if Rlt_dec a b then true else false.

(** Rounding toward zero, the quotient that C's [fmod] removes. *)
Definition trunc (x : R) : Z := if Rle_dec 0 x then Zfloor x else Zceil x.

(** C's [fmod]: the remainder has the sign of the dividend. *)
Definition fmod (x y : R) : R := x - y * IZR (trunc (x / y)).

(** Python's [vx % wx] on floats (CPython [float_rem]): the result of
    [fmod] is moved by one divisor when its sign differs from the sign of
    the divisor; a zero remainder stays zero. *)
Definition py_mod (vx wx : R) : R :=
  let md := fmod vx wx in
  if Req_dec_T md 0 then 0
  else if Bool.eqb (Rltb wx 0) (Rltb md 0) then md else md + wx.

(** Python's builtin [max(a, b)]: the first argument is kept unless the
    second is strictly greater. *)
Definition py_max (a b : R) : R := if Rlt_dec a b then b else a.

(** Python's builtin [min(a, b)]: the first argument is kept unless the
    second is strictly smaller. *)
Definition py_min (a b : R) : R := if Rlt_dec b a then b else a.

End PyFloat.

(** ** The script *)

Module Plottest.
Import PyFloat.

Definition A4_PITCH : R := 69.
Definition A4_FREQ : R := 440.

(** [(2 ** ((pitch - A4_PITCH) / 12.0)) * A4_FREQ] *)
Definition midi_pitch_to_freq (pitch : R) : R :=
  Rpower 2 ((pitch - A4_PITCH) / 12) * A4_FREQ.

(** [math.sin(t * midi_pitch_to_freq(note_value) * math.tau)] *)
Definition f (t note_value : R) : R :=
  sin (t * midi_pitch_to_freq note_value * tau).

(** [(((n + math.pi) % math.tau) / math.pi) - 1.0] *)
Definition saw (n : R) : R := py_mod (n + PI) tau / PI - 1.

(** [min(2.0, max(0.0, math.sin(n) * 100.0)) - 1.0] *)
Definition square (n : R) : R := py_min 2 (py_max 0 (sin n * 100)) - 1.

(** [abs(saw(n + math.pi / 2.0)) * 2.0 - 1.0] *)
Definition triangle (n : R) : R := Rabs (saw (n + PI / 2)) * 2 - 1.

Definition f2 (t note_value : R) : R :=
  saw (t * midi_pitch_to_freq note_value * tau).

Definition f3 (t note_value : R) : R :=
  square (t * midi_pitch_to_freq note_value * tau).

Definition f4 (t note_value : R) : R :=
  triangle (t * midi_pitch_to_freq note_value * tau).



End Plottest.

(** ** Binary64 values and IEEE operations *)

Module Binary64.

(** *** The format: rounding to nearest even *)

(** [2^e] *)
Definition bpow (e : Z) : R := powerRZ 2 e.
Arguments bpow : simpl never.

(** The binary exponent of [x]: [floor(log2 |x|)]. *)
Definition ilog2 (x : R) : Z := Zfloor (ln (Rabs x) / ln 2).

(** The exponent of the last place of [x]: 53 significant bits, and not
    below the subnormal exponent -1074. *)
Definition expo (x : R) : Z := Z.max (ilog2 x - 52) (-1074).

(** The integer nearest to [y], ties to the even one. *)
Definition rne (y : R) : Z :=
  let k := Zfloor y in
  if Rlt_dec (y - IZR k) (1 / 2) then k
  else if Rlt_dec (1 / 2) (y - IZR k) then (k + 1)%Z
  else if Z.even k then k else (k + 1)%Z.

(** Rounding to nearest even, before the overflow test. *)
Definition round (x : R) : R := IZR (rne (x / bpow (expo x))) * bpow (expo x).

(** *** Values and operations *)

(** A double: a finite value, an infinity, or a NaN.  The two zeros are
    identified. *)
Inductive float : Type :=
| Fin (x : R)
| PInf
| NInf
| NaN.

(** Rounding to nearest even with overflow to the infinities. *)
Definition fl (x : R) : float :=
  if Rle_dec (bpow 1024) (round x) then PInf
  else if Rle_dec (round x) (- bpow 1024) then NInf
  else Fin (round x).

Definition is_zero (a : float) : bool :=
  match a with
  | Fin x => if Req_dec_T x 0 then true else false
  | _ => false
  end.

Definition is_nan (a : float) : bool :=
  match a with NaN => true | _ => false end.

Definition is_inf (a : float) : bool :=
  match a with PInf | NInf => true | _ => false end.

Definition is_finite (a : float) : bool :=
  match a with Fin _ => true | _ => false end.

(** The comparison [a < b]; false as soon as one side is a NaN. *)
Definition flt (a b : float) : bool :=
  match a, b with
  | NaN, _ | _, NaN => false
  | Fin x, Fin y => PyFloat.Rltb x y
  | NInf, NInf | PInf, _ => false
  | NInf, _ => true
  | Fin _, PInf => true
  | Fin _, NInf => false
  end.

Definition fneg (a : float) : float :=
  match a with
  | Fin x => Fin (- x)
  | PInf => NInf
  | NInf => PInf
  | NaN => NaN
  end.

Definition fabs (a : float) : float :=
  match a with
  | Fin x => Fin (Rabs x)
  | PInf | NInf => PInf
  | NaN => NaN
  end.

Definition fadd (a b : float) : float :=
  match a, b with
  | NaN, _ | _, NaN => NaN
  | Fin x, Fin y => fl (x + y)
  | PInf, NInf | NInf, PInf => NaN
  | PInf, _ | _, PInf => PInf
  | NInf, _ | _, NInf => NInf
  end.

Definition fsub (a b : float) : float := fadd a (fneg b).

(** An infinity times a finite value: NaN for zero, else the signed
    infinity. *)
Definition inf_times (i : float) (x : R) : float :=
  if Req_dec_T x 0 then NaN
  else if Rlt_dec 0 x then i else fneg i.

Definition fmul (a b : float) : float :=
  match a, b with
  | NaN, _ | _, NaN => NaN
  | Fin x, Fin y => fl (x * y)
  | Fin x, i => inf_times i x
  | i, Fin x => inf_times i x
  | PInf, PInf | NInf, NInf => PInf
  | PInf, NInf | NInf, PInf => NInf
  end.

(** Division by a non-zero divisor (Python rejects a zero divisor before
    dividing). *)
Definition fdiv (a b : float) : float :=
  match a, b with
  | NaN, _ | _, NaN => NaN
  | Fin x, Fin y => fl (x / y)
  | Fin _, _ => Fin 0
  | i, Fin y => if Rlt_dec y 0 then fneg i else i
  | _, _ => NaN
  end.

(** C's [fmod]: exact, with the sign of the dividend. *)
Definition c_fmod (a b : float) : float :=
  match a, b with
  | Fin x, Fin y => if Req_dec_T y 0 then NaN else Fin (PyFloat.fmod x y)
  | Fin x, (PInf | NInf) => Fin x
  | _, _ => NaN
  end.

(** The doubles [math.pi] and [math.tau]. *)
Definition pi_f : R := 7074237752028440 / 2251799813685248.
Definition tau_f : R := 7074237752028440 / 1125899906842624.

(** The C library: [pow(2.0, y)] and [sin(x)] on doubles. *)
Record Libm : Type := {
  c_pow2 : float -> float;
  c_sin : float -> float
}.

(** What the development assumes of the C library.

    [sin]: a finite argument gives a finite result between -1 and 1; zero
    gives zero; an infinity gives a NaN (C Annex F); a NaN gives a NaN;
    and between 1/1024 and 1/64 the result lies between half the least
    and the whole of the greatest argument.

    [pow(2.0, y)] for a finite [y]: the result is [+inf] or a finite value
    that is not negative; an integer [y] in the normal range gives the
    exact power of two; [y >= 1024] overflows to [+inf]; [y <= -1076], a
    quarter of the least subnormal or less, underflows to zero; and from
    [y = -1022] upwards a finite result is a positive double, at least
    the least subnormal [2^-1074]. *)
Record libm_ok (L : Libm) : Prop := {
  sin_finite : forall x, exists s, c_sin L (Fin x) = Fin s /\ -1 <= s <= 1;
  sin_zero : c_sin L (Fin 0) = Fin 0;
  sin_pinf : c_sin L PInf = NaN;
  sin_ninf : c_sin L NInf = NaN;
  sin_nan : c_sin L NaN = NaN;
  sin_small : forall x s,
      1 / 1024 <= x <= 1 / 64 -> c_sin L (Fin x) = Fin s -> 1 / 2048 <= s <= 1 / 64;
  pow2_nonneg : forall y,
      c_pow2 L (Fin y) = PInf \/ exists r, c_pow2 L (Fin y) = Fin r /\ 0 <= r;
  pow2_int : forall k, (-1022 <= k <= 1023)%Z -> c_pow2 L (Fin (IZR k)) = Fin (bpow k);
  pow2_overflow : forall y, 1024 <= y -> c_pow2 L (Fin y) = PInf;
  pow2_underflow : forall y, y <= -1076 -> c_pow2 L (Fin y) = Fin 0;
  pow2_normal : forall y r,
      -1022 <= y -> c_pow2 L (Fin y) = Fin r -> bpow (-1074) <= r
}.

(** A correctly rounded C library. *)
Definition libm_cr : Libm := {|
  c_pow2 := fun y =>
    match y with
    | Fin w => fl (Rpower 2 w)
    | PInf => PInf
    | NInf => Fin 0
    | NaN => NaN
    end;
  c_sin := fun x =>
    match x with
    | Fin w => fl (sin w)
    | _ => NaN
    end
|}.

End Binary64.

(** ** Python's float operations on binary64 *)

Module Py64.
Import Binary64.

(** The exceptions the operations can raise, and the outcome of a call. *)
Inductive exn : Type := ZeroDivisionError | OverflowError | ValueError.

Inductive result : Type :=
| Ok (v : float)
| Raise (e : exn).

Definition bind (r : result) (k : float -> result) : result :=
  match r with
  | Ok v => k v
  | Raise e => Raise e
  end.

(** [a / b] (CPython [float_div]): a zero divisor is rejected. *)
Definition truediv (a b : float) : result :=
  if is_zero b then Raise ZeroDivisionError else Ok (fdiv a b).

(** [vx % wx] (CPython [float_rem]): a zero divisor is rejected; a
    non-zero result of [fmod] (a NaN counts as non-zero) whose sign
    differs from the sign of the divisor is moved by one divisor, with the
    rounding of that addition; a zero result stays zero. *)
Definition rem (vx wx : float) : result :=
  if is_zero wx then Raise ZeroDivisionError
  else
    let md := c_fmod vx wx in
    if is_zero md then Ok (Fin 0)
    else if Bool.eqb (flt wx (Fin 0)) (flt md (Fin 0)) then Ok md
    else Ok (fadd md wx).

(** [2 ** w] (CPython [float_pow] with base 2.0): a zero, NaN or infinite
    exponent is decided before the C library is called; an infinite
    result of [pow] is reported as [OverflowError], and an underflow to
    zero is not an error. *)
Definition pow2 (L : Libm) (w : float) : result :=
  match w with
  | NaN => Ok NaN
  | PInf => Ok PInf
  | NInf => Ok (Fin 0)
  | Fin y =>
      if Req_dec_T y 0 then Ok (Fin 1)
      else
        let ix := c_pow2 L w in
        if is_inf ix then Raise OverflowError else Ok ix
  end.

(** [math.sin(x)]: a NaN result for a non-NaN argument, or an infinite
    result for a finite argument, is reported as [ValueError]. *)
Definition math_sin (L : Libm) (x : float) : result :=
  let r := c_sin L x in
  if is_nan r && negb (is_nan x) then Raise ValueError
  else if is_inf r && is_finite x then Raise ValueError
  else Ok r.

(** [max(a, b)] and [min(a, b)]: the first argument is kept unless the
    second is strictly greater, respectively smaller; a comparison with a
    NaN is false. *)
Definition builtin_max (a b : float) : float := if flt a b then b else a.
Definition builtin_min (a b : float) : float := if flt b a then b else a.

End Py64.

(** ** The script on binary64 *)

Module Plottest64.
Import Binary64 Py64.

Definition A4_PITCH : float := Fin 69.
Definition A4_FREQ : float := Fin 440.
Definition math_pi : float := Fin pi_f.
Definition math_tau : float := Fin tau_f.

(** [(2 ** ((pitch - A4_PITCH) / 12.0)) * A4_FREQ] *)
Definition midi_pitch_to_freq (L : Libm) (pitch : float) : result :=
  bind (truediv (fsub pitch A4_PITCH) (Fin 12)) (fun q =>
  bind (pow2 L q) (fun pw =>
  Ok (fmul pw A4_FREQ))).

(** [math.sin(t * midi_pitch_to_freq(note_value) * math.tau)] *)
Definition f (L : Libm) (t note_value : float) : result :=
  bind (midi_pitch_to_freq L note_value) (fun fr =>
  math_sin L (fmul (fmul t fr) math_tau)).

(** [(((n + math.pi) % math.tau) / math.pi) - 1.0] *)
Definition saw (n : float) : result :=
  bind (rem (fadd n math_pi) math_tau) (fun md =>
  bind (truediv md math_pi) (fun q =>
  Ok (fsub q (Fin 1)))).

(** [min(2.0, max(0.0, math.sin(n) * 100.0)) - 1.0] *)
Definition square (L : Libm) (n : float) : result :=
  bind (math_sin L n) (fun s =>
  Ok (fsub (builtin_min (Fin 2) (builtin_max (Fin 0) (fmul s (Fin 100)))) (Fin 1))).

(** [abs(saw(n + math.pi / 2.0)) * 2.0 - 1.0] *)
Definition triangle (n : float) : result :=
  bind (truediv math_pi (Fin 2)) (fun h =>
  bind (saw (fadd n h)) (fun s =>
  Ok (fsub (fmul (fabs s) (Fin 2)) (Fin 1)))).

Definition f2 (L : Libm) (t note_value : float) : result :=
  bind (midi_pitch_to_freq L note_value) (fun fr =>
  saw (fmul (fmul t fr) math_tau)).

Definition f3 (L : Libm) (t note_value : float) : result :=
  bind (midi_pitch_to_freq L note_value) (fun fr =>
  square L (fmul (fmul t fr) math_tau)).

Definition f4 (L : Libm) (t note_value : float) : result :=
  bind (midi_pitch_to_freq L note_value) (fun fr =>
  triangle (fmul (fmul t fr) math_tau)).

(** *** Notions used in the statements *)

(** The exponent handed to [**]: [(pitch - A4_PITCH) / 12.0] with its
    non-zero divisor. *)
Definition exponent_of (p : R) : float := fdiv (fsub (Fin p) A4_PITCH) (Fin 12).

(** The Euclidean remainder of [a] by [math.tau]. *)
Definition euclid (a : R) : R := a - tau_f * IZR (Zfloor (a / tau_f)).

(** The double nearest to 1/880. *)
Definition t_880 : R := 2620276146833743 / 2305843009213693952.

(** The fold argument at time 1/1024 and pitch 69. *)
Definition x_1024 : R := round (round (round (1 / 1024 * 440) * tau_f) + pi_f).

(** The dividend of [%] when [f2] calls [saw]: the phase plus
    [math.pi]. *)
Definition fold_arg (L : Libm) (t note_value : float) : result :=
  bind (midi_pitch_to_freq L note_value) (fun fr =>
  Ok (fadd (fmul (fmul t fr) math_tau) math_pi)).

End Plottest64.

(** ** Facts about the real-number reading *)

Section Primitives.
Import PyFloat.

Lemma PI_gt_3 : 3 < PI.
Proof. pose proof PI2_3_2. lra. Qed.


Lemma Rltb_true (a b : R) : a < b -> Rltb a b = true.
Proof. intros H. unfold Rltb. destruct (Rlt_dec a b); [reflexivity | contradiction]. Qed.

Lemma Rltb_false (a b : R) : ~ a < b -> Rltb a b = false.
Proof. intros H. unfold Rltb. destruct (Rlt_dec a b); [contradiction | reflexivity]. Qed.

(** A real that lies within its own floor is an integer, and then floor and
    ceiling agree. *)
Lemma Zceil_eq_floor_or_succ (x : R) :
  (IZR (Zfloor x) = x /\ Zceil x = Zfloor x) \/
  (IZR (Zfloor x) < x /\ Zceil x = (Zfloor x + 1)%Z).
Proof.
  pose proof (Zfloor_bound x) as [Hlo Hhi].
  destruct (Req_dec_T (IZR (Zfloor x)) x) as [E | NE].
  - left. split; [exact E |].
    unfold Zceil. rewrite <- E at 1. rewrite ZfloorNZ. lia.
  - right. split; [lra |].
    unfold Zceil.
    assert (Zfloor (- x) = (- Zfloor x - 1)%Z) as ->; [| lia].
    apply Zfloor_eq. rewrite minus_IZR, opp_IZR. lra.
Qed.

(** The quotient times the divisor gives the dividend back. *)
Lemma div_mul_cancel (x y : R) : y <> 0 -> y * (x / y) = x.
Proof. intros Hy. field. exact Hy. Qed.

(** For a positive divisor Python's [%] is the floored remainder. *)
Lemma py_mod_floor (x y : R) :
  0 < y -> py_mod x y = x - y * IZR (Zfloor (x / y)).
Proof.
  intros Hy.
  assert (Hxy : y * (x / y) = x) by (apply div_mul_cancel; lra).
  pose proof (Zfloor_bound (x / y)) as [Hlo Hhi].
  assert (Hny : Rltb y 0 = false) by (apply Rltb_false; lra).
  unfold py_mod, fmod, trunc.
  destruct (Rle_dec 0 (x / y)) as [Hq | Hq].
  - destruct (Req_dec_T (x - y * IZR (Zfloor (x / y))) 0) as [E | NE].
    + lra.
    + rewrite Hny, Rltb_false; [reflexivity | nra].
  - destruct (Zceil_eq_floor_or_succ (x / y)) as [[E Hc] | [L Hc]]; rewrite Hc.
    + destruct (Req_dec_T (x - y * IZR (Zfloor (x / y))) 0) as [E0 | NE].
      * lra.
      * exfalso. apply NE. rewrite E. lra.
    + rewrite plus_IZR.
      destruct (Req_dec_T (x - y * (IZR (Zfloor (x / y)) + 1)) 0) as [E0 | NE].
      * exfalso. nra.
      * rewrite Hny, Rltb_true; [simpl; lra | nra].
Qed.

(** For a positive divisor Python's [%] lands in [[0, y)]. *)
Lemma py_mod_range (x y : R) : 0 < y -> 0 <= py_mod x y < y.
Proof.
  intros Hy. rewrite (py_mod_floor x y Hy).
  assert (Hxy : y * (x / y) = x) by (apply div_mul_cancel; lra).
  pose proof (Zfloor_bound (x / y)) as [Hlo Hhi].
  split; nra.
Qed.

Lemma py_max_lower (a b : R) : a <= py_max a b.
Proof. unfold py_max. destruct (Rlt_dec a b); lra. Qed.

Lemma py_min_upper (a b : R) : py_min a b <= a.
Proof. unfold py_min. destruct (Rlt_dec b a); lra. Qed.

Lemma py_min_lower (a b c : R) : c <= a -> c <= b -> c <= py_min a b.
Proof. intros Ha Hb. unfold py_min. destruct (Rlt_dec b a); lra. Qed.

End Primitives.

Section Waveforms.
Import PyFloat Plottest.


Lemma freq_A4 : midi_pitch_to_freq 69 = 440.
Proof.
  unfold midi_pitch_to_freq, A4_PITCH, A4_FREQ.
  replace ((69 - 69) / 12) with 0 by lra.
  rewrite Rpower_O by lra. lra.
Qed.


Lemma square_range (n : R) : -1 <= square n <= 1.
Proof.
  unfold square. split.
  - assert (0 <= py_min 2 (py_max 0 (sin n * 100))); [| lra].
    apply py_min_lower; [lra | apply py_max_lower].
  - pose proof (py_min_upper 2 (py_max 0 (sin n * 100))). lra.
Qed.


Lemma sin_hundredth : 0 < sin (1 / 100) < 1 / 100.
Proof.
  pose proof PI_gt_3. split.
  - apply sin_gt_0; lra.
  - apply sin_lt_x. lra.
Qed.


End Waveforms.

(** ** Facts about rounding *)

Section Rounding.
Import Binary64.

Lemma bpow_pos e : 0 < bpow e.
Proof. apply powerRZ_lt. lra. Qed.

Lemma bpow_add a b : bpow (a + b) = bpow a * bpow b.
Proof. apply powerRZ_add. lra. Qed.

Lemma bpow_0 : bpow 0 = 1.
Proof. reflexivity. Qed.

Lemma bpow_ge_1 n : (0 <= n)%Z -> 1 <= bpow n.
Proof.
  intros H. unfold bpow. destruct n as [| p | p]; simpl.
  - lra.
  - apply pow_R1_Rle. lra.
  - lia.
Qed.

Lemma bpow_le a b : (a <= b)%Z -> bpow a <= bpow b.
Proof.
  intros H. replace b with (a + (b - a))%Z by lia.
  rewrite bpow_add. pose proof (bpow_pos a). pose proof (bpow_ge_1 (b - a)).
  assert (1 <= bpow (b - a)) by (apply H1; lia). nra.
Qed.

Lemma bpow_lt a b : (a < b)%Z -> bpow a < bpow b.
Proof.
  intros H. replace b with (a + 1 + (b - a - 1))%Z by lia.
  rewrite !bpow_add. pose proof (bpow_pos a). pose proof (bpow_ge_1 (b - a - 1)).
  assert (1 <= bpow (b - a - 1)) by (apply H1; lia).
  assert (bpow 1 = 2) by (unfold bpow; simpl; lra). nra.
Qed.

Lemma bpow_IZR n : (0 <= n)%Z -> bpow n = IZR (2 ^ n).
Proof.
  intros H. unfold bpow. destruct n as [| p | p]; simpl.
  - reflexivity.
  - rewrite Zpower_pos_powerRZ. reflexivity.
  - lia.
Qed.

Lemma ln_bpow e : ln (bpow e) = IZR e * ln 2.
Proof. unfold bpow. rewrite powerRZ_Rpower by lra. apply ln_Rpower. Qed.

Lemma ln2_pos : 0 < ln 2.
Proof. pose proof ln_lt_2. lra. Qed.

(** rne *)
Lemma rne_IZR k : rne (IZR k) = k.
Proof.
  unfold rne. rewrite ZfloorZ.
  destruct (Rlt_dec (IZR k - IZR k) (1 / 2)); [reflexivity | lra].
Qed.

Lemma rne_floor_or_succ y : rne y = Zfloor y \/ rne y = (Zfloor y + 1)%Z.
Proof.
  unfold rne. destruct (Rlt_dec _ _); [now left |].
  destruct (Rlt_dec _ _); [now right |].
  destruct (Z.even _); [now left | now right].
Qed.

Lemma rne_le y y' : y <= y' -> (rne y <= rne y')%Z.
Proof.
  intros H.
  pose proof (Zfloor_bound y) as [Hl Hu]. pose proof (Zfloor_bound y') as [Hl' Hu'].
  pose proof (Zfloor_le y y' H) as Hf.
  destruct (Z.eq_dec (Zfloor y) (Zfloor y')) as [E | NE].
  - unfold rne. rewrite <- E.
    repeat destruct (Rlt_dec _ _); try destruct (Z.even _); try lia; lra.
  - assert (Hlt : (Zfloor y + 1 <= Zfloor y')%Z) by lia.
    destruct (rne_floor_or_succ y) as [-> | ->];
      destruct (rne_floor_or_succ y') as [-> | ->]; lia.
Qed.

Lemma rne_near y k : Rabs (y - IZR k) < 1 / 2 -> rne y = k.
Proof.
  intros H. apply Rabs_def2 in H. destruct H as [H1 H2].
  destruct (Rle_dec (IZR k) y) as [Hle | Hgt].
  - assert (Hf : Zfloor y = k) by (apply Zfloor_eq; lra).
    unfold rne. rewrite Hf.
    destruct (Rlt_dec (y - IZR k) (1 / 2)); [reflexivity | lra].
  - assert (Hf : Zfloor y = (k - 1)%Z) by (apply Zfloor_eq; rewrite minus_IZR; lra).
    unfold rne. rewrite Hf. rewrite minus_IZR.
    destruct (Rlt_dec (y - (IZR k - 1)) (1 / 2)); [lra |].
    destruct (Rlt_dec (1 / 2) (y - (IZR k - 1))); [f_equal; lia | lra].
Qed.


Lemma rne_opp y : rne (- y) = (- rne y)%Z.
Proof.
  pose proof (Zfloor_bound y) as [Hl Hu].
  destruct (Req_dec_T (IZR (Zfloor y)) y) as [E | NE].
  - rewrite <- E, <- opp_IZR, !rne_IZR. reflexivity.
  - assert (Hf : Zfloor (- y) = (- Zfloor y - 1)%Z).
    { apply Zfloor_eq. rewrite minus_IZR, opp_IZR. lra. }
    unfold rne. rewrite Hf, minus_IZR, opp_IZR.
    replace (Z.even (- Zfloor y - 1)) with (negb (Z.even (Zfloor y))).
    2:{ replace (- Zfloor y - 1)%Z with (- (Zfloor y + 1))%Z by lia.
        rewrite Z.even_opp. rewrite Z.even_add. simpl.
        destruct (Z.even (Zfloor y)); reflexivity. }
    repeat destruct (Rlt_dec _ _); try lra; try lia.
    destruct (Z.even (Zfloor y)); simpl; lia.
Qed.

Lemma rne_ge y k : IZR k <= y -> (k <= rne y)%Z.
Proof. intros H. rewrite <- (rne_IZR k). apply rne_le. exact H. Qed.

Lemma rne_le_Z y k : y <= IZR k -> (rne y <= k)%Z.
Proof. intros H. pose proof (rne_le y (IZR k) H) as Hr. rewrite rne_IZR in Hr. exact Hr. Qed.

(** ilog2 and expo *)
Lemma exp_le_mono a b : a <= b -> exp a <= exp b.
Proof.
  intros [H | ->]; [left; apply exp_increasing; exact H | right; reflexivity].
Qed.

Lemma ilog2_bounds x : x <> 0 -> bpow (ilog2 x) <= Rabs x < bpow (ilog2 x + 1).
Proof.
  intros Hx. assert (Ha : 0 < Rabs x) by (apply Rabs_pos_lt; exact Hx).
  pose proof ln2_pos as H2. unfold ilog2.
  pose proof (Zfloor_bound (ln (Rabs x) / ln 2)) as [Hl Hu].
  set (k := Zfloor (ln (Rabs x) / ln 2)) in *.
  assert (Hq : ln (Rabs x) / ln 2 * ln 2 = ln (Rabs x)) by (field; lra).
  assert (Hbk : forall j, bpow j = exp (IZR j * ln 2)).
  { intros j. rewrite <- ln_bpow. symmetry. apply exp_ln. apply bpow_pos. }
  assert (Hex : Rabs x = exp (ln (Rabs x))) by (symmetry; apply exp_ln; exact Ha).
  rewrite !Hbk, plus_IZR. rewrite Hex at 1 2. split.
  - apply exp_le_mono. nra.
  - apply exp_increasing. nra.
Qed.

Lemma ilog2_unique x k : bpow k <= Rabs x < bpow (k + 1) -> ilog2 x = k.
Proof.
  intros [Hl Hu]. pose proof (bpow_pos k) as Hk.
  assert (Hx : x <> 0).
  { intros ->. rewrite Rabs_R0 in Hl. lra. }
  pose proof (ilog2_bounds x Hx) as [Hl' Hu'].
  destruct (Z.lt_trichotomy (ilog2 x) k) as [H | [H | H]]; [| exact H |].
  - assert (bpow (ilog2 x + 1) <= bpow k) by (apply bpow_le; lia). lra.
  - assert (bpow (k + 1) <= bpow (ilog2 x)) by (apply bpow_le; lia). lra.
Qed.

Lemma ilog2_le x y : x <> 0 -> Rabs x <= Rabs y -> (ilog2 x <= ilog2 y)%Z.
Proof.
  intros Hx Hxy.
  assert (Hy : y <> 0).
  { intros ->. rewrite Rabs_R0 in Hxy. pose proof (Rabs_pos_lt x Hx). lra. }
  pose proof (ilog2_bounds x Hx) as [Hl Hu].
  pose proof (ilog2_bounds y Hy) as [Hl' Hu'].
  destruct (Z_le_gt_dec (ilog2 x) (ilog2 y)) as [H | H]; [exact H |].
  assert (bpow (ilog2 y + 1) <= bpow (ilog2 x)) by (apply bpow_le; lia). lra.
Qed.

Lemma expo_ge x : (-1074 <= expo x)%Z.
Proof. unfold expo. lia. Qed.

Lemma expo_le x y : x <> 0 -> Rabs x <= Rabs y -> (expo x <= expo y)%Z.
Proof. intros Hx Hxy. pose proof (ilog2_le x y Hx Hxy). unfold expo. lia. Qed.

Lemma expo_opp x : expo (- x) = expo x.
Proof. unfold expo, ilog2. rewrite Rabs_Ropp. reflexivity. Qed.

(** |x| is below 2^(expo x + 53) *)
Lemma expo_upper x : x <> 0 -> Rabs x < bpow (expo x + 53).
Proof.
  intros Hx. pose proof (ilog2_bounds x Hx) as [_ Hu].
  assert (bpow (ilog2 x + 1) <= bpow (expo x + 53)) by (apply bpow_le; unfold expo; lia).
  lra.
Qed.

(** above the subnormal range, |x| is at least 2^(expo x + 52) *)
Lemma expo_lower x : x <> 0 -> (-1074 < expo x)%Z -> bpow (expo x + 52) <= Rabs x.
Proof.
  intros Hx He. pose proof (ilog2_bounds x Hx) as [Hl _].
  assert (expo x = (ilog2 x - 52)%Z) by (unfold expo in *; lia).
  replace (expo x + 52)%Z with (ilog2 x) by lia. exact Hl.
Qed.

Lemma expo_unique x k :
  bpow k <= Rabs x < bpow (k + 1) -> expo x = Z.max (k - 52) (-1074).
Proof. intros H. unfold expo. rewrite (ilog2_unique x k H). reflexivity. Qed.

(** round *)
Lemma round_0 : round 0 = 0.
Proof.
  unfold round. unfold Rdiv. rewrite Rmult_0_l.
  change 0 with (IZR 0) at 1. rewrite rne_IZR. simpl. lra.
Qed.

Lemma round_opp x : round (- x) = - round x.
Proof.
  unfold round. rewrite expo_opp.
  replace (- x / bpow (expo x)) with (- (x / bpow (expo x))) by (unfold Rdiv; ring).
  rewrite rne_opp, opp_IZR. ring.
Qed.

Lemma div_bpow_mul x e : x / bpow e * bpow e = x.
Proof. pose proof (bpow_pos e). field. lra. Qed.

Lemma round_le_pos x y : 0 < x -> x <= y -> round x <= round y.
Proof.
  intros Hx Hxy.
  assert (Hx0 : x <> 0) by lra. assert (Hy0 : y <> 0) by lra.
  assert (Hax : Rabs x = x) by (apply Rabs_pos_eq; lra).
  assert (Hay : Rabs y = y) by (apply Rabs_pos_eq; lra).
  assert (He : (expo x <= expo y)%Z) by (apply expo_le; [exact Hx0 | lra]).
  unfold round.
  pose proof (bpow_pos (expo x)) as Hbx. pose proof (bpow_pos (expo y)) as Hby.
  destruct (Z.eq_dec (expo x) (expo y)) as [E | NE].
  - rewrite E.
    assert (Hq : x / bpow (expo y) <= y / bpow (expo y)).
    { unfold Rdiv. apply Rmult_le_compat_r; [left; apply Rinv_0_lt_compat; exact Hby | exact Hxy]. }
    apply rne_le in Hq. apply IZR_le in Hq.
    apply Rmult_le_compat_r; [lra | exact Hq].
  - assert (Hlt : (expo x < expo y)%Z) by lia.
    (* round x <= 2^(expo x + 53) <= 2^(expo y + 52) <= round y *)
    assert (H1 : IZR (rne (x / bpow (expo x))) * bpow (expo x) <= bpow (expo x + 53)).
    { pose proof (expo_upper x Hx0) as Hu. rewrite Hax in Hu.
      assert (Hq : x / bpow (expo x) <= IZR (2 ^ 53)).
      { rewrite <- bpow_IZR by lia.
        apply Rmult_le_reg_r with (bpow (expo x)); [exact Hbx |].
        rewrite div_bpow_mul. rewrite Rmult_comm, <- bpow_add. lra. }
      apply rne_le_Z in Hq. apply IZR_le in Hq.
      rewrite bpow_add, (Rmult_comm (bpow (expo x))).
      rewrite (bpow_IZR 53) by lia.
      apply Rmult_le_compat_r; [lra | exact Hq]. }
    assert (H2 : bpow (expo y + 52) <= IZR (rne (y / bpow (expo y))) * bpow (expo y)).
    { assert (Hl : bpow (expo y + 52) <= y).
      { assert (Hey : (-1074 < expo y)%Z) by (pose proof (expo_ge x); lia).
        pose proof (expo_lower y Hy0 Hey) as Hl. rewrite Hay in Hl. exact Hl. }
      assert (Hq : IZR (2 ^ 52) <= y / bpow (expo y)).
      { rewrite <- bpow_IZR by lia.
        apply Rmult_le_reg_r with (bpow (expo y)); [exact Hby |].
        rewrite div_bpow_mul. rewrite Rmult_comm, <- bpow_add. exact Hl. }
      apply rne_ge in Hq. apply IZR_le in Hq.
      rewrite bpow_add, (Rmult_comm (bpow (expo y))).
      rewrite (bpow_IZR 52) by lia.
      apply Rmult_le_compat_r; [lra | exact Hq]. }
    assert (H3 : bpow (expo x + 53) <= bpow (expo y + 52)) by (apply bpow_le; lia).
    lra.
Qed.

Lemma round_nonneg x : 0 <= x -> 0 <= round x.
Proof.
  intros H. unfold round. pose proof (bpow_pos (expo x)) as Hb.
  assert (Hq : IZR 0 <= x / bpow (expo x)).
  { unfold Rdiv. apply Rmult_le_pos; [exact H | left; apply Rinv_0_lt_compat; exact Hb]. }
  apply rne_ge in Hq. apply IZR_le in Hq.
  apply Rmult_le_pos; lra.
Qed.

Lemma round_le x y : x <= y -> round x <= round y.
Proof.
  intros H.
  destruct (Rlt_dec 0 x) as [Hx | Hx].
  - apply round_le_pos; assumption.
  - destruct (Rle_dec 0 y) as [Hy | Hy].
    + assert (round x <= 0).
      { assert (0 <= round (- x)) by (apply round_nonneg; lra).
        rewrite round_opp in H0. lra. }
      pose proof (round_nonneg y Hy). lra.
    + assert (round (- y) <= round (- x)) by (apply round_le_pos; lra).
      rewrite !round_opp in H0. lra.
Qed.

Lemma bpow_neg_IZR n : (0 <= n)%Z -> bpow (- n) = / IZR (2 ^ n).
Proof.
  intros H. unfold bpow. rewrite powerRZ_neg'. fold (bpow n).
  rewrite bpow_IZR by exact H. reflexivity.
Qed.

Lemma round_repr m e :
  (Z.abs m < 2 ^ 53)%Z -> (-1074 <= e)%Z -> round (IZR m * bpow e) = IZR m * bpow e.
Proof.
  intros Hm He.
  destruct (Z.eq_dec m 0) as [-> | Hm0].
  - rewrite Rmult_0_l. apply round_0.
  - pose proof (bpow_pos e) as Hbe.
    set (x := IZR m * bpow e).
    assert (Hx0 : x <> 0).
    { unfold x. apply Rmult_integral_contrapositive_currified; [| lra].
      apply not_0_IZR. exact Hm0. }
    assert (Hax : Rabs x < bpow (e + 53)).
    { unfold x. rewrite Rabs_mult, (Rabs_pos_eq (bpow e)) by lra.
      rewrite <- abs_IZR, bpow_add, (bpow_IZR 53) by lia.
      rewrite (Rmult_comm (bpow e)). apply Rmult_lt_compat_r; [exact Hbe |].
      apply IZR_lt. exact Hm. }
    assert (Hex : (expo x <= e)%Z).
    { pose proof (ilog2_bounds x Hx0) as [Hl _].
      assert (Hil : (ilog2 x < e + 53)%Z).
      { destruct (Z_lt_ge_dec (ilog2 x) (e + 53)) as [H | H]; [exact H |].
        assert (bpow (e + 53) <= bpow (ilog2 x)) by (apply bpow_le; lia). lra. }
      unfold expo. lia. }
    unfold round. set (d := expo x) in *.
    assert (Hsplit : bpow e = bpow (e - d) * bpow d).
    { rewrite <- bpow_add. f_equal. lia. }
    assert (Hq : x / bpow d = IZR (m * 2 ^ (e - d))).
    { rewrite mult_IZR, <- bpow_IZR by lia. unfold x.
      rewrite Hsplit. pose proof (bpow_pos d). field. lra. }
    rewrite Hq, rne_IZR, <- Hq. apply div_bpow_mul.
Qed.

Lemma round_near x k :
  Rabs (x - IZR k * bpow (expo x)) < bpow (expo x) / 2 ->
  round x = IZR k * bpow (expo x).
Proof.
  intros H. unfold round. f_equal. f_equal. apply rne_near.
  pose proof (bpow_pos (expo x)) as Hb.
  replace (x / bpow (expo x) - IZR k)
    with ((x - IZR k * bpow (expo x)) / bpow (expo x)) by (field; lra).
  unfold Rdiv at 1. rewrite Rabs_mult, (Rabs_pos_eq (/ bpow (expo x))).
  2:{ left. apply Rinv_0_lt_compat. exact Hb. }
  apply Rmult_lt_reg_r with (bpow (expo x)); [exact Hb |].
  rewrite Rmult_assoc, Rinv_l by lra. lra.
Qed.


End Rounding.

Section RoundingToDouble.
Import Binary64.

Lemma fl_in_range x :
  - bpow 1024 < round x < bpow 1024 -> fl x = Fin (round x).
Proof.
  intros [Hlo Hhi]. unfold fl.
  destruct (Rle_dec (bpow 1024) (round x)); [lra |].
  destruct (Rle_dec (round x) (- bpow 1024)); [lra | reflexivity].
Qed.

Lemma fl_cases x : fl x = PInf \/ fl x = NInf \/ fl x = Fin (round x).
Proof.
  unfold fl. destruct (Rle_dec _ _); [now left |].
  destruct (Rle_dec _ _); [now right; left | now right; right].
Qed.

Lemma fl_overflow x : bpow 1024 <= x -> fl x = PInf.
Proof.
  intros H. unfold fl.
  assert (Hr : round (bpow 1024) = bpow 1024).
  { rewrite <- (Rmult_1_l (bpow 1024)). apply (round_repr 1 1024); lia. }
  pose proof (round_le _ _ H) as Hm. rewrite Hr in Hm.
  destruct (Rle_dec (bpow 1024) (round x)); [reflexivity | lra].
Qed.

(** A value with at most 53 significant bits above the subnormal floor and
    below the overflow threshold is kept as it is. *)
Lemma fl_repr x m e :
  x = IZR m * bpow e -> (Z.abs m < 2 ^ 53)%Z -> (-1074 <= e <= 971)%Z ->
  fl x = Fin x.
Proof.
  intros -> Hm He.
  assert (Hr : round (IZR m * bpow e) = IZR m * bpow e) by (apply round_repr; lia).
  rewrite <- Hr at 2. apply fl_in_range. rewrite Hr.
  pose proof (bpow_pos e) as Hb.
  assert (Ha : Rabs (IZR m * bpow e) < bpow 1024).
  { rewrite Rabs_mult, (Rabs_pos_eq (bpow e)), <- abs_IZR by lra.
    apply Rlt_le_trans with (IZR (2 ^ 53) * bpow e).
    - apply Rmult_lt_compat_r; [exact Hb | apply IZR_lt; exact Hm].
    - rewrite <- bpow_IZR, <- bpow_add by lia. apply bpow_le. lia. }
  apply Rabs_def2 in Ha. lra.
Qed.

Lemma fl_int x z : x = IZR z -> (Z.abs z < 2 ^ 53)%Z -> fl x = Fin x.
Proof.
  intros Hx Hz. apply (fl_repr x z 0); [| exact Hz | lia].
  rewrite Hx. unfold bpow. simpl. lra.
Qed.

(** [m / 2^k] with a 53-bit numerator. *)
Lemma fl_dyadic x m k :
  x = IZR m / IZR (2 ^ k) -> (Z.abs m < 2 ^ 53)%Z -> (0 <= k <= 1074)%Z ->
  fl x = Fin x.
Proof.
  intros Hx Hm Hk. apply (fl_repr x m (- k)); [| exact Hm | lia].
  rewrite Hx, bpow_neg_IZR by lia. reflexivity.
Qed.

Lemma round_int z : (Z.abs z < 2 ^ 53)%Z -> round (IZR z) = IZR z.
Proof.
  intros Hz. pose proof (round_repr z 0 Hz) as H.
  unfold bpow in H. simpl in H. rewrite Rmult_1_r in H. apply H. lia.
Qed.

Lemma round_dyadic m k :
  (Z.abs m < 2 ^ 53)%Z -> (0 <= k <= 1074)%Z ->
  round (IZR m / IZR (2 ^ k)) = IZR m / IZR (2 ^ k).
Proof.
  intros Hm Hk. pose proof (round_repr m (- k) Hm) as H.
  rewrite bpow_neg_IZR in H by lia. apply H. lia.
Qed.

Lemma bpow_1024_big : 1000000 < bpow 1024.
Proof.
  apply Rlt_le_trans with (bpow 20).
  - rewrite bpow_IZR by lia. simpl. lra.
  - apply bpow_le. lia.
Qed.

(** Rounding keeps a value between two doubles. *)
Lemma fl_between lo hi x :
  round lo = lo -> round hi = hi -> - bpow 1024 < lo -> hi < bpow 1024 ->
  lo <= x <= hi -> exists r, fl x = Fin r /\ lo <= r <= hi.
Proof.
  intros Hlo Hhi Hl Hh [H1 H2].
  pose proof (round_le _ _ H1) as Ha. pose proof (round_le _ _ H2) as Hb.
  rewrite Hlo in Ha. rewrite Hhi in Hb.
  exists (round x). split; [apply fl_in_range; lra | lra].
Qed.

(** The same between two small integers. *)
Lemma fl_between_int (a b : Z) x :
  (Z.abs a < 1000000)%Z -> (Z.abs b < 1000000)%Z ->
  IZR a <= x <= IZR b -> exists r, fl x = Fin r /\ IZR a <= r <= IZR b.
Proof.
  intros Ha Hb H. pose proof bpow_1024_big as Hbig.
  apply fl_between; try (apply round_int; lia); try exact H.
  - assert (- 1000000 < IZR a); [| lra].
    apply (IZR_lt (-1000000) a). lia.
  - assert (IZR b < 1000000); [| lra].
    apply (IZR_lt b 1000000). lia.
Qed.

(** Rounding a non-negative value gives a non-negative double or [+inf]. *)
Lemma fl_nonneg x :
  0 <= x -> fl x = PInf \/ exists r, fl x = Fin r /\ 0 <= r.
Proof.
  intros H. pose proof (round_nonneg x H) as Hr.
  pose proof (bpow_pos 1024) as Hb.
  destruct (fl_cases x) as [E | [E | E]].
  - now left.
  - exfalso. unfold fl in E.
    destruct (Rle_dec _ _); [discriminate |].
    destruct (Rle_dec _ _); [lra | discriminate].
  - right. exists (round x). split; assumption.
Qed.

End RoundingToDouble.

Section CorrectlyRoundedLibrary.
Import Binary64.

Lemma fl_repr_lt x m e :
  x = IZR m * bpow e -> (Z.abs m < 2 ^ 53)%Z -> (-1074 <= e)%Z ->
  Rabs x < bpow 1024 -> fl x = Fin x.
Proof.
  intros Hx Hm He Ha.
  assert (Hr : round x = x) by (rewrite Hx; apply round_repr; assumption).
  rewrite <- Hr at 2. apply fl_in_range. rewrite Hr.
  apply Rabs_def2 in Ha. lra.
Qed.

Lemma fl_Fin_round x r : fl x = Fin r -> r = round x.
Proof.
  unfold fl. destruct (Rle_dec _ _); [discriminate |].
  destruct (Rle_dec _ _); [discriminate |]. intros H. injection H. auto.
Qed.

Lemma round_bpow e : (-1074 <= e)%Z -> round (bpow e) = bpow e.
Proof.
  intros He. pose proof (round_repr 1 e) as H.
  rewrite Rmult_1_l in H. apply H; lia.
Qed.

Lemma Rabs_bpow e : Rabs (bpow e) = bpow e.
Proof. apply Rabs_pos_eq. left. apply bpow_pos. Qed.

(** A quarter of the least subnormal rounds to zero. *)
Lemma round_tiny x : 0 <= x <= bpow (-1076) -> round x = 0.
Proof.
  intros [H0 H1].
  assert (Hq : round (bpow (-1076)) = 0).
  { assert (He : expo (bpow (-1076)) = (-1074)%Z).
    { rewrite (expo_unique _ (-1076)); [reflexivity |].
      rewrite Rabs_bpow. split; [lra | apply bpow_lt; lia]. }
    pose proof (round_near (bpow (-1076)) 0) as Hn. rewrite He in Hn.
    rewrite Hn; [lra |].
    replace (-1074)%Z with (-1076 + 2)%Z by lia. rewrite bpow_add.
    assert (H4 : bpow 2 = 4) by (unfold bpow; simpl; lra). rewrite H4.
    pose proof (bpow_pos (-1076)) as Hb.
    rewrite Rmult_0_l, Rminus_0_r, Rabs_bpow. lra. }
  pose proof (round_nonneg x H0). pose proof (round_le _ _ H1). lra.
Qed.

Lemma Rpower_2_IZR k : Rpower 2 (IZR k) = bpow k.
Proof. unfold bpow. rewrite powerRZ_Rpower by lra. reflexivity. Qed.

Lemma Rpower_2_le a b : a <= b -> Rpower 2 a <= Rpower 2 b.
Proof. intros H. apply Rle_Rpower; lra. Qed.

Lemma sin_small_real x : 1 / 1024 <= x <= 1 / 64 -> 1 / 2048 <= sin x <= 1 / 64.
Proof.
  intros [H0 H1]. pose proof PI_RGT_0 as Hpi. pose proof PI2_3_2 as Hpi2.
  split.
  - pose proof (SIN x) as HS. destruct HS as [Hlb _]; [lra | lra |].
    unfold sin_lb, sin_approx, sin_term in Hlb. simpl in Hlb.
    match type of Hlb with
    | ?l <= _ =>
        replace l with (x * (1 - x * x / 6 + x * x * (x * x) / 120
                             - x * x * (x * x) * (x * x) / 5040)) in Hlb by (field; lra)
    end.
    assert (Hy : 0 <= x * x <= 1 / 4096) by nra.
    set (y := x * x) in *.
    assert (Hy2 : 0 <= y * y) by nra.
    assert (Hy3 : y * y * y <= 1) by nra.
    assert (Hf : 1 / 2 <= 1 - y / 6 + y * y / 120 - y * y * y / 5040) by lra.
    nra.
  - pose proof (sin_lt_x x). lra.
Qed.

Lemma libm_cr_ok : libm_ok libm_cr.
Proof.
  constructor; cbn [c_pow2 c_sin libm_cr].
  - intros x. pose proof (SIN_bound x) as Hs.
    destruct (fl_between_int (-1) 1 (sin x)) as [s Hs']; [lia | lia | lra |].
    exists s. exact Hs'.
  - rewrite sin_0. apply (fl_int 0 0); [reflexivity | lia].
  - reflexivity.
  - reflexivity.
  - reflexivity.
  - intros x s Hx Hf. apply fl_Fin_round in Hf. subst s.
    pose proof (sin_small_real x Hx) as [Hl Hu].
    assert (R1 : round (1 / 2048) = 1 / 2048) by (apply (round_dyadic 1 11); lia).
    assert (R2 : round (1 / 64) = 1 / 64) by (apply (round_dyadic 1 6); lia).
    pose proof (round_le _ _ Hl). pose proof (round_le _ _ Hu). lra.
  - intros y. apply fl_nonneg. left. unfold Rpower. apply exp_pos.
  - intros k Hk. rewrite Rpower_2_IZR.
    apply (fl_repr_lt _ 1 k); [lra | lia | lia |].
    rewrite Rabs_bpow. apply bpow_lt. lia.
  - intros y Hy. apply fl_overflow. rewrite <- Rpower_2_IZR.
    apply Rpower_2_le. exact Hy.
  - intros y Hy.
    assert (Hr : round (Rpower 2 y) = 0).
    { apply round_tiny. split; [left; unfold Rpower; apply exp_pos |].
      rewrite <- Rpower_2_IZR. apply Rpower_2_le. exact Hy. }
    rewrite <- Hr. apply fl_in_range. rewrite Hr.
    pose proof (bpow_pos 1024). lra.
  - intros y r Hy Hf. apply fl_Fin_round in Hf. subst r.
    apply Rle_trans with (bpow (-1022)); [apply bpow_le; lia |].
    rewrite <- (round_bpow (-1022)) by lia. apply round_le.
    rewrite <- Rpower_2_IZR. apply Rpower_2_le. exact Hy.
Qed.

End CorrectlyRoundedLibrary.

Section RoundingFromBelow.
Import Binary64.

(** Rounding stays above a double that is below the argument. *)
Lemma fl_ge lo x :
  round lo = lo -> - bpow 1024 < lo -> lo <= x ->
  fl x = PInf \/ exists r, fl x = Fin r /\ lo <= r.
Proof.
  intros Hlo Hl H. pose proof (round_le _ _ H) as Hr. rewrite Hlo in Hr.
  unfold fl. destruct (Rle_dec _ _); [now left |].
  destruct (Rle_dec _ _); [lra |].
  right. exists (round x). split; [reflexivity | exact Hr].
Qed.

End RoundingFromBelow.

Section Remainder.
Import Binary64 Py64 Plottest64.

Lemma trunc_bounds q :
  (0 <= q -> IZR (PyFloat.trunc q) <= q < IZR (PyFloat.trunc q) + 1) /\
  (q < 0 -> IZR (PyFloat.trunc q) - 1 < q <= IZR (PyFloat.trunc q)).
Proof.
  unfold PyFloat.trunc. destruct (Rle_dec 0 q) as [H | H]; split; intros H'; try lra.
  - apply Zfloor_bound.
  - apply Zceil_bound.
Qed.

(** C's [fmod] for a positive divisor is smaller than the divisor in
    magnitude. *)
Lemma fmod_range x y : 0 < y -> - y < PyFloat.fmod x y < y.
Proof.
  intros Hy. unfold PyFloat.fmod.
  assert (Hq : y * (x / y) = x) by (apply div_mul_cancel; lra).
  destruct (trunc_bounds (x / y)) as [Hp Hn].
  set (T := IZR (PyFloat.trunc (x / y))) in *.
  destruct (Rle_dec 0 (x / y)) as [H | H].
  - specialize (Hp H).
    assert (0 <= y * (x / y - T)) by (apply Rmult_le_pos; lra).
    assert (0 < y * (T + 1 - x / y)) by (apply Rmult_lt_0_compat; lra).
    split; lra.
  - assert (H' : x / y < 0) by lra. specialize (Hn H').
    assert (0 <= y * (T - x / y)) by (apply Rmult_le_pos; lra).
    assert (0 < y * (x / y - (T - 1))) by (apply Rmult_lt_0_compat; lra).
    split; lra.
Qed.

Lemma fmod_small x y : 0 < y -> Rabs x < y -> PyFloat.fmod x y = x.
Proof.
  intros Hy Hx. apply Rabs_def2 in Hx. destruct Hx as [Hx1 Hx2].
  unfold PyFloat.fmod, PyFloat.trunc.
  assert (Hq : y * (x / y) = x) by (apply div_mul_cancel; lra).
  destruct (Rle_dec 0 (x / y)) as [H | H].
  - rewrite (Zfloor_eq 0); [simpl; lra |]. simpl. split; nra.
  - unfold Zceil. rewrite (Zfloor_eq 0); [simpl; lra |]. simpl. split; nra.
Qed.

Lemma fmod_self y : 0 < y -> PyFloat.fmod y y = 0.
Proof.
  intros Hy. unfold PyFloat.fmod, PyFloat.trunc.
  replace (y / y) with 1 by (field; lra).
  destruct (Rle_dec 0 1); [| lra].
  rewrite (ZfloorZ 1). lra.
Qed.

Lemma pi_f_pos : 0 < pi_f.
Proof. unfold pi_f. lra. Qed.

Lemma tau_f_pos : 0 < tau_f.
Proof. unfold tau_f. lra. Qed.

Lemma tau_f_double : tau_f = 2 * pi_f.
Proof. unfold tau_f, pi_f. lra. Qed.

Lemma round_tau_f : round tau_f = tau_f.
Proof. apply (round_dyadic 7074237752028440 50); lia. Qed.

Lemma round_pi_f : round pi_f = pi_f.
Proof. apply (round_dyadic 7074237752028440 51); lia. Qed.

Lemma tau_f_small : tau_f < bpow 1024.
Proof. pose proof bpow_1024_big. unfold tau_f. lra. Qed.

Lemma is_zero_Fin x : x <> 0 -> is_zero (Fin x) = false.
Proof. intros H. simpl. destruct (Req_dec_T x 0); [contradiction | reflexivity]. Qed.

Lemma is_zero_Fin_0 : is_zero (Fin 0) = true.
Proof. simpl. destruct (Req_dec_T 0 0); [reflexivity | lra]. Qed.



End Remainder.

Section FmodSign.
Import Binary64.

(** C's [fmod] has the sign of the dividend. *)
Lemma fmod_sign x y :
  0 < y ->
  (0 <= x -> 0 <= PyFloat.fmod x y) /\ (x <= 0 -> PyFloat.fmod x y <= 0).
Proof.
  intros Hy.
  assert (Hq : y * (x / y) = x) by (apply div_mul_cancel; lra).
  destruct (trunc_bounds (x / y)) as [Hp Hn].
  assert (H0 : x = 0 -> PyFloat.fmod x y = 0).
  { intros ->. unfold PyFloat.fmod, PyFloat.trunc.
    replace (0 / y) with 0 by (field; lra).
    destruct (Rle_dec 0 0); [| lra]. rewrite (ZfloorZ 0). lra. }
  unfold PyFloat.fmod in *.
  set (T := IZR (PyFloat.trunc (x / y))) in *.
  split; intros Hx.
  - destruct (Req_dec_T x 0) as [E | NE]; [rewrite (H0 E); lra |].
    assert (Hpos : 0 < x / y).
    { unfold Rdiv. apply Rmult_lt_0_compat; [lra | apply Rinv_0_lt_compat; exact Hy]. }
    assert (HT : T <= x / y < T + 1) by (apply Hp; lra).
    assert (0 <= y * (x / y - T)) by (apply Rmult_le_pos; lra). lra.
  - destruct (Req_dec_T x 0) as [E | NE]; [rewrite (H0 E); lra |].
    assert (Hneg : x / y < 0).
    { assert (0 < - x / y); [| unfold Rdiv in *; lra].
      unfold Rdiv. apply Rmult_lt_0_compat; [lra | apply Rinv_0_lt_compat; exact Hy]. }
    assert (HT : T - 1 < x / y <= T) by (apply Hn; exact Hneg).
    assert (0 <= y * (T - x / y)) by (apply Rmult_le_pos; lra). lra.
Qed.

End FmodSign.

Section ProgramFacts.
Import Binary64 Py64 Plottest64.

Variable L : Libm.
Hypothesis HL : libm_ok L.

(** [math.sin] on each kind of argument. *)
Lemma math_sin_Fin a :
  exists s, math_sin L (Fin a) = Ok (Fin s) /\ -1 <= s <= 1.
Proof.
  destruct (sin_finite L HL a) as [s [Hs Hb]].
  exists s. unfold math_sin. rewrite Hs. simpl. split; [reflexivity | exact Hb].
Qed.

Lemma math_sin_PInf : math_sin L PInf = Raise ValueError.
Proof. unfold math_sin. rewrite (sin_pinf L HL). reflexivity. Qed.

Lemma math_sin_NInf : math_sin L NInf = Raise ValueError.
Proof. unfold math_sin. rewrite (sin_ninf L HL). reflexivity. Qed.

Lemma math_sin_NaN : math_sin L NaN = Ok NaN.
Proof. unfold math_sin. rewrite (sin_nan L HL). reflexivity. Qed.

Lemma math_sin_0 : math_sin L (Fin 0) = Ok (Fin 0).
Proof. unfold math_sin. rewrite (sin_zero L HL). reflexivity. Qed.

Lemma midi_unfold p :
  midi_pitch_to_freq L (Fin p) =
  bind (pow2 L (exponent_of p)) (fun pw => Ok (fmul pw A4_FREQ)).
Proof.
  unfold midi_pitch_to_freq, truediv, exponent_of.
  rewrite is_zero_Fin by lra. reflexivity.
Qed.

Lemma fmul_nonneg_440 r :
  0 <= r ->
  fmul (Fin r) A4_FREQ = PInf \/ exists v, fmul (Fin r) A4_FREQ = Fin v /\ 0 <= v.
Proof. intros H. unfold fmul, A4_FREQ. apply fl_nonneg. lra. Qed.

Lemma fl_1_440 : fl (1 * 440) = Fin 440.
Proof.
  replace (1 * 440) with 440 by lra. apply (fl_int 440 440); [reflexivity | lia].
Qed.

Lemma fl_0_440 : fl (0 * 440) = Fin 0.
Proof.
  replace (0 * 440) with 0 by lra. apply (fl_int 0 0); [reflexivity | lia].
Qed.

(** The frequency: an [OverflowError], [+inf], or a non-negative double. *)
Lemma midi_cases p :
  midi_pitch_to_freq L (Fin p) = Raise OverflowError \/
  midi_pitch_to_freq L (Fin p) = Ok PInf \/
  exists r, midi_pitch_to_freq L (Fin p) = Ok (Fin r) /\ 0 <= r.
Proof.
  rewrite midi_unfold.
  destruct (exponent_of p) as [y | | |] eqn:Ey.
  - unfold pow2. destruct (Req_dec_T y 0) as [E | NE].
    + right; right. exists 440. cbn [bind fmul A4_FREQ]. rewrite fl_1_440.
      split; [reflexivity | lra].
    + destruct (pow2_nonneg L HL y) as [-> | [r [-> Hr]]].
      * left. reflexivity.
      * cbn [is_inf bind].
        destruct (fmul_nonneg_440 r Hr) as [-> | [v [-> Hv]]].
        -- right; left. reflexivity.
        -- right; right. exists v. split; [reflexivity | exact Hv].
  - right; left. cbn [pow2 bind fmul A4_FREQ]. unfold inf_times.
    destruct (Req_dec_T 440 0); [lra |]. destruct (Rlt_dec 0 440); [reflexivity | lra].
  - right; right. exists 0. cbn [pow2 bind fmul A4_FREQ]. rewrite fl_0_440.
    split; [reflexivity | lra].
  - exfalso. unfold exponent_of, fsub, fneg, fadd, A4_PITCH in Ey.
    destruct (fl_cases (p + - (69))) as [E | [E | E]]; rewrite E in Ey; cbn [fdiv] in Ey.
    + destruct (Rlt_dec 12 0); discriminate.
    + destruct (Rlt_dec 12 0); discriminate.
    + destruct (fl_cases (round (p + - (69)) / 12)) as [E' | [E' | E']];
        rewrite E' in Ey; discriminate.
Qed.

(** The clamp of [square] maps every double, NaN included, into the
    interval from 0 to 2. *)
Lemma clamp_range v :
  exists c, builtin_min (Fin 2) (builtin_max (Fin 0) v) = Fin c /\ 0 <= c <= 2.
Proof.
  unfold builtin_max, builtin_min.
  destruct v as [x | | |]; cbn [flt].
  - unfold PyFloat.Rltb. destruct (Rlt_dec 0 x) as [Hx | Hx]; cbn [flt]; unfold PyFloat.Rltb.
    + destruct (Rlt_dec x 2); [exists x | exists 2]; split; try reflexivity; lra.
    + destruct (Rlt_dec 0 2); [exists 0 | exists 2]; split; try reflexivity; lra.
  - exists 2. split; [reflexivity | lra].
  - unfold PyFloat.Rltb. destruct (Rlt_dec 0 2); [exists 0 | exists 2]; split; try reflexivity; lra.
  - unfold PyFloat.Rltb. destruct (Rlt_dec 0 2); [exists 0 | exists 2]; split; try reflexivity; lra.
Qed.

Lemma fsub_1_range c :
  0 <= c <= 2 -> exists r, fsub (Fin c) (Fin 1) = Fin r /\ -1 <= r <= 1.
Proof.
  intros Hc. cbn [fsub fneg fadd].
  apply (fl_between_int (-1) 1); [lia | lia | lra].
Qed.

(** The square fold raises [ValueError] or returns a value between -1
    and 1. *)
Lemma square64_range n :
  square L n = Raise ValueError \/
  exists r, square L n = Ok (Fin r) /\ -1 <= r <= 1.
Proof.
  unfold square.
  assert (Hc : forall s, exists r,
             Ok (fsub (builtin_min (Fin 2) (builtin_max (Fin 0) (fmul s (Fin 100)))) (Fin 1))
             = Ok (Fin r) /\ -1 <= r <= 1).
  { intros s. destruct (clamp_range (fmul s (Fin 100))) as [c [-> Hc]].
    destruct (fsub_1_range c Hc) as [r [-> Hr]]. exists r. split; [reflexivity | exact Hr]. }
  destruct n as [a | | |].
  - right. destruct (math_sin_Fin a) as [s [-> _]]. apply Hc.
  - left. rewrite math_sin_PInf. reflexivity.
  - left. rewrite math_sin_NInf. reflexivity.
  - right. rewrite math_sin_NaN. apply Hc.
Qed.


End ProgramFacts.

Section Evaluation.
Import Binary64 Py64 Plottest64.

Lemma fl_exact_int x z : x = IZR z -> (Z.abs z < 2 ^ 53)%Z -> fl x = Fin (IZR z).
Proof. intros Hx Hz. rewrite <- Hx. apply (fl_int x z); assumption. Qed.

Lemma fl_exact x c m k :
  x = c -> c = IZR m / IZR (2 ^ k) -> (Z.abs m < 2 ^ 53)%Z -> (0 <= k <= 1074)%Z ->
  fl x = Fin c.
Proof. intros -> Hc Hm Hk. apply (fl_dyadic c m k); assumption. Qed.

(** The exponent at a pitch a whole number of octaves from A4 is that
    number, exactly. *)
Lemma exponent_of_octaves z :
  (Z.abs z < 2 ^ 40)%Z -> exponent_of (69 + 12 * IZR z) = Fin (IZR z).
Proof.
  intros Hz. unfold exponent_of, A4_PITCH. cbn [fsub fneg fadd].
  rewrite (fl_exact_int _ (12 * z)); [| rewrite mult_IZR; lra | lia].
  cbn [fdiv]. apply fl_exact_int; [rewrite mult_IZR; field | lia].
Qed.

Lemma fmul_PInf_tau : fmul PInf math_tau = PInf.
Proof.
  pose proof tau_f_pos. cbn [fmul math_tau]. unfold inf_times.
  destruct (Req_dec_T tau_f 0); [lra |]. destruct (Rlt_dec 0 tau_f); [reflexivity | lra].
Qed.

Lemma fmul_huge_440 : fmul (Fin (bpow 1023)) (Fin 440) = PInf.
Proof.
  cbn [fmul]. apply fl_overflow.
  replace 1024%Z with (1023 + 1)%Z by lia. rewrite bpow_add.
  assert (bpow 1 = 2) by (unfold bpow; simpl; lra).
  pose proof (bpow_pos 1023). nra.
Qed.

Lemma fl_0 : fl 0 = Fin 0.
Proof. apply (fl_exact_int 0 0); [reflexivity | lia]. Qed.

Lemma fmul_0_l r : fmul (Fin 0) (Fin r) = Fin 0.
Proof. cbn [fmul]. rewrite Rmult_0_l. apply fl_0. Qed.

Lemma rem_pos_small a :
  0 < a < tau_f -> rem (Fin a) math_tau = Ok (Fin a).
Proof.
  intros [H0 H1]. pose proof tau_f_pos as Ht. unfold rem, math_tau.
  rewrite is_zero_Fin by lra. cbn [c_fmod].
  destruct (Req_dec_T tau_f 0); [lra |].
  rewrite fmod_small; [| exact Ht | rewrite Rabs_pos_eq; lra].
  rewrite is_zero_Fin by lra. cbn [flt].
  rewrite (Rltb_false tau_f 0), (Rltb_false a 0) by lra. reflexivity.
Qed.

Lemma truediv_pi m : truediv (Fin m) math_pi = Ok (fl (m / pi_f)).
Proof.
  pose proof pi_f_pos. unfold truediv, math_pi. rewrite is_zero_Fin by lra. reflexivity.
Qed.

Lemma half_pi : truediv math_pi (Fin 2) = Ok (Fin (pi_f / 2)).
Proof.
  unfold truediv, math_pi. rewrite is_zero_Fin by lra. cbn [fdiv]. f_equal.
  apply (fl_exact _ _ 7074237752028440 52); [reflexivity | unfold pi_f; simpl; lra | lia | lia].
Qed.

Lemma saw64_0 : saw (Fin 0) = Ok (Fin 0).
Proof.
  pose proof pi_f_pos as Hp. unfold saw. cbn [fadd math_pi].
  rewrite (fl_exact (0 + pi_f) pi_f 7074237752028440 51);
    [| lra | reflexivity | lia | lia].
  rewrite rem_pos_small by (rewrite tau_f_double; lra).
  cbn [bind]. rewrite truediv_pi. cbn [bind].
  rewrite (fl_exact_int (pi_f / pi_f) 1); [| field; lra | lia].
  cbn [fsub fneg fadd].
  rewrite (fl_exact_int (1 + - (1)) 0); [reflexivity | lra | lia].
Qed.

Lemma saw64_half_pi : saw (Fin (pi_f / 2)) = Ok (Fin (1 / 2)).
Proof.
  pose proof pi_f_pos as Hp. unfold saw. cbn [fadd math_pi].
  rewrite (fl_exact (pi_f / 2 + pi_f) (3 * pi_f / 2) 5305678314021330 50);
    [| lra | unfold pi_f; simpl; lra | lia | lia].
  rewrite rem_pos_small by (rewrite tau_f_double; lra).
  cbn [bind]. rewrite truediv_pi. cbn [bind].
  rewrite (fl_exact (3 * pi_f / 2 / pi_f) (3 / 2) 3 1); [| field; lra | simpl; lra | lia | lia].
  cbn [fsub fneg fadd].
  rewrite (fl_exact (3 / 2 + - (1)) (1 / 2) 1 1); [reflexivity | lra | simpl; lra | lia | lia].
Qed.

Lemma triangle64_0 : triangle (Fin 0) = Ok (Fin 0).
Proof.
  unfold triangle. rewrite half_pi. cbn [bind fadd].
  rewrite (fl_exact (0 + pi_f / 2) (pi_f / 2) 7074237752028440 52);
    [| lra | unfold pi_f; simpl; lra | lia | lia].
  rewrite saw64_half_pi. cbn [bind fabs fmul].
  rewrite (fl_exact_int (Rabs (1 / 2) * 2) 1); [| rewrite Rabs_pos_eq; lra | lia].
  cbn [fsub fneg fadd].
  rewrite (fl_exact_int (1 + - (1)) 0); [reflexivity | lra | lia].
Qed.

Lemma clamp_neg_one v :
  flt (Fin 0) v = false ->
  fsub (builtin_min (Fin 2) (builtin_max (Fin 0) v)) (Fin 1) = Fin (-1).
Proof.
  intros Hv. unfold builtin_max. rewrite Hv. unfold builtin_min. cbn [flt].
  rewrite (Rltb_true 0 2) by lra. cbn [fsub fneg fadd].
  apply (fl_exact_int _ (-1)); [lra | lia].
Qed.

End Evaluation.

Section FrequencyOnDoubles.
Import Binary64 Py64 Plottest64.

Lemma midi_at_octaves L (HL : libm_ok L) k :
  (-1022 <= k <= 1015)%Z ->
  midi_pitch_to_freq L (Fin (69 + 12 * IZR k)) = Ok (Fin (440 * bpow k)).
Proof.
  intros Hk. rewrite (midi_unfold L), exponent_of_octaves by lia.
  unfold pow2. destruct (Req_dec_T (IZR k) 0) as [E | NE].
  - apply eq_IZR_R0 in E. subst k. cbn [bind fmul A4_FREQ].
    rewrite fl_1_440. unfold bpow. simpl. do 2 f_equal. lra.
  - rewrite (pow2_int L HL k) by lia. cbn [is_inf bind fmul A4_FREQ].
    f_equal. replace (bpow k * 440) with (440 * bpow k) by ring.
    apply (fl_repr_lt _ 55 (k + 3)); [| lia | lia |].
    + rewrite bpow_add. assert (H8 : bpow 3 = 8) by (unfold bpow; simpl; lra).
      rewrite H8. lra.
    + pose proof (bpow_pos k) as Hb. rewrite Rabs_pos_eq by lra.
      apply Rlt_le_trans with (bpow (k + 9)).
      * rewrite bpow_add. assert (H9 : bpow 9 = 512) by (unfold bpow; simpl; lra).
        rewrite H9. lra.
      * apply bpow_le. lia.
Qed.

Lemma midi_A4 L (HL : libm_ok L) : midi_pitch_to_freq L (Fin 69) = Ok (Fin 440).
Proof.
  pose proof (midi_at_octaves L HL 0) as H.
  replace (69 + 12 * 0) with 69 in H by lra.
  replace (440 * bpow 0) with 440 in H by (unfold bpow; simpl; lra).
  apply H. lia.
Qed.

Lemma midi_overflow L (HL : libm_ok L) :
  midi_pitch_to_freq L (Fin 12357) = Raise OverflowError.
Proof.
  replace 12357 with (69 + 12 * IZR 1024) by lra.
  rewrite (midi_unfold L), exponent_of_octaves by lia.
  unfold pow2. destruct (Req_dec_T 1024 0); [lra |].
  rewrite (pow2_overflow L HL) by lra. reflexivity.
Qed.

Lemma midi_underflow L (HL : libm_ok L) :
  midi_pitch_to_freq L (Fin (-13131)) = Ok (Fin 0).
Proof.
  replace (-13131) with (69 + 12 * IZR (-1100)) by lra.
  rewrite (midi_unfold L), exponent_of_octaves by lia.
  unfold pow2. destruct (Req_dec_T (-1100) 0); [lra |].
  rewrite (pow2_underflow L HL) by lra. cbn [is_inf bind]. f_equal.
  apply fmul_0_l.
Qed.


(** From pitch -12195 upwards the exponent stays in the normal range and
    a returned frequency is positive. *)
Lemma midi_positive L (HL : libm_ok L) p v :
  -12195 <= p -> midi_pitch_to_freq L (Fin p) = Ok v -> flt (Fin 0) v = true.
Proof.
  intros Hp. rewrite (midi_unfold L).
  pose proof (bpow_pos 1024) as Hb. pose proof bpow_1024_big as Hbig.
  unfold exponent_of, A4_PITCH. cbn [fsub fneg fadd].
  destruct (fl_ge (-12264) (p + - (69))) as [-> | [d [-> Hd]]];
    [apply (round_int (-12264)); lia | lra | lra | |].
  - cbn [fdiv]. destruct (Rlt_dec 12 0); [lra |].
    cbn [pow2 bind fmul A4_FREQ]. unfold inf_times.
    destruct (Req_dec_T 440 0); [lra |]. destruct (Rlt_dec 0 440); [| lra].
    intros H. injection H as <-. reflexivity.
  - cbn [fdiv].
    destruct (fl_ge (-1022) (d / 12)) as [-> | [y [-> Hy]]];
      [apply (round_int (-1022)); lia | lra | lra | |].
    + cbn [pow2 bind fmul A4_FREQ]. unfold inf_times.
      destruct (Req_dec_T 440 0); [lra |]. destruct (Rlt_dec 0 440); [| lra].
      intros H. injection H as <-. reflexivity.
    + unfold pow2. destruct (Req_dec_T y 0) as [E | NE].
      * cbn [bind fmul A4_FREQ]. rewrite fl_1_440. intros H. injection H as <-.
        cbn [flt]. apply Rltb_true. lra.
      * destruct (pow2_nonneg L HL y) as [E | [r [E Hr]]]; rewrite E.
        -- cbn [is_inf]. discriminate.
        -- cbn [is_inf bind fmul A4_FREQ].
           pose proof (pow2_normal L HL y r Hy E) as Hn.
           pose proof (bpow_pos (-1074)) as Hs.
           destruct (fl_ge (440 * bpow (-1074)) (r * 440)) as [-> | [w [-> Hw]]];
             [apply (round_repr 440 (-1074)); lia | nra | nra | |].
           ++ intros H. injection H as <-. reflexivity.
           ++ intros H. injection H as <-. cbn [flt]. apply Rltb_true. nra.
Qed.

End FrequencyOnDoubles.

Section RemEuclid.
Import Binary64 Py64 Plottest64.

Lemma euclid_py_mod a : euclid a = PyFloat.py_mod a tau_f.
Proof. unfold euclid. rewrite py_mod_floor by apply tau_f_pos. reflexivity. Qed.

Lemma euclid_range a : 0 <= euclid a < tau_f.
Proof. rewrite euclid_py_mod. apply py_mod_range. apply tau_f_pos. Qed.

(** On a finite dividend [%] returns the Euclidean remainder: as it is
    when [fmod] is not negative, rounded to a double when [fmod] is
    negative and the divisor is added. *)
Lemma rem_euclid a :
  exists m, rem (Fin a) math_tau = Ok (Fin m) /\ 0 <= m <= tau_f /\
    ((0 <= PyFloat.fmod a tau_f /\ m = euclid a) \/
     (PyFloat.fmod a tau_f < 0 /\ m = round (euclid a))).
Proof.
  pose proof tau_f_pos as Ht. pose proof (euclid_range a) as [He0 He1].
  rewrite euclid_py_mod in *. unfold PyFloat.py_mod in *.
  unfold rem, math_tau. rewrite is_zero_Fin by lra. cbn [c_fmod].
  destruct (Req_dec_T tau_f 0); [lra |].
  set (md := PyFloat.fmod a tau_f) in *. cbn [is_zero flt].
  rewrite (Rltb_false tau_f 0) in * by lra.
  destruct (Req_dec_T md 0) as [E | NE].
  - exists 0. split; [reflexivity |]. split; [lra |]. left. split; [lra | reflexivity].
  - destruct (Rlt_dec md 0) as [Hn | Hp].
    + rewrite (Rltb_true md 0 Hn) in *. cbn [eqb fadd] in *.
      pose proof (bpow_pos 1024) as Hb.
      destruct (fl_between 0 tau_f (md + tau_f)) as [r [Hr Hb']];
        [apply round_0 | apply round_tau_f | lra | apply tau_f_small | lra |].
      exists r. rewrite Hr. split; [reflexivity |]. split; [exact Hb' |].
      right. split; [exact Hn | apply fl_Fin_round; exact Hr].
    + rewrite (Rltb_false md 0 Hp) in *. cbn [eqb] in *.
      exists md. split; [reflexivity |]. split; [lra |]. left. split; [lra | reflexivity].
Qed.

Lemma saw_of_rem n m :
  rem (fadd n math_pi) math_tau = Ok (Fin m) -> 0 <= m <= tau_f ->
  saw n = Ok (Fin (round (round (m / pi_f) + - (1)))).
Proof.
  intros Hr [Hm0 Hm1]. pose proof pi_f_pos as Hp. pose proof bpow_1024_big as Hbig.
  unfold saw. rewrite Hr. cbn [bind]. rewrite truediv_pi. cbn [bind].
  assert (Hq : 0 <= m / pi_f <= 2).
  { rewrite tau_f_double in Hm1. split.
    - apply Rmult_le_pos; [exact Hm0 | left; apply Rinv_0_lt_compat; exact Hp].
    - apply Rmult_le_reg_r with pi_f; [exact Hp |].
      unfold Rdiv. rewrite Rmult_assoc, Rinv_l by lra. lra. }
  destruct (fl_between_int 0 2 (m / pi_f)) as [q [Hfq [Hq0 Hq1]]]; [lia | lia | exact Hq |].
  rewrite Hfq. apply fl_Fin_round in Hfq. subst q.
  cbn [fsub fneg fadd].
  destruct (fl_between_int (-1) 1 (round (m / pi_f) + - (1))) as [s [Hfs Hs]];
    [lia | lia | lra |].
  rewrite Hfs. apply fl_Fin_round in Hfs. subst s. reflexivity.
Qed.

Lemma Zfloor_neg x : x < 0 -> (Zfloor (x / tau_f) < 0)%Z.
Proof.
  intros Hx. pose proof tau_f_pos as Ht.
  pose proof (Zfloor_bound (x / tau_f)) as [Hl _].
  assert (Hq : x / tau_f < 0).
  { assert (0 < - x / tau_f); [| unfold Rdiv in *; lra].
    unfold Rdiv. apply Rmult_lt_0_compat; [lra | apply Rinv_0_lt_compat; exact Ht]. }
  apply lt_IZR. lra.
Qed.

Lemma Zfloor_pos x : 0 <= x -> (0 <= Zfloor (x / tau_f))%Z.
Proof.
  intros Hx. pose proof tau_f_pos as Ht. apply Zfloor_lub.
  unfold Rdiv. apply Rmult_le_pos; [exact Hx | left; apply Rinv_0_lt_compat; exact Ht].
Qed.

(** Within one period of [%] the remainder does not decrease. *)
Lemma rem_monotone x1 x2 :
  x1 <= x2 -> Zfloor (x1 / tau_f) = Zfloor (x2 / tau_f) ->
  exists m1 m2,
    rem (Fin x1) math_tau = Ok (Fin m1) /\ rem (Fin x2) math_tau = Ok (Fin m2) /\
    0 <= m1 <= tau_f /\ 0 <= m2 <= tau_f /\ m1 <= m2.
Proof.
  intros Hx Hk. pose proof tau_f_pos as Ht.
  destruct (rem_euclid x1) as [m1 [Hr1 [Hb1 Hc1]]].
  destruct (rem_euclid x2) as [m2 [Hr2 [Hb2 Hc2]]].
  exists m1, m2. repeat split; try assumption; try lra.
  assert (HE : euclid x1 <= euclid x2).
  { unfold euclid. rewrite Hk. lra. }
  pose proof (euclid_range x1) as [H10 H11]. pose proof (euclid_range x2) as [H20 H21].
  destruct (fmod_sign x1 tau_f Ht) as [Hs1p Hs1n].
  destruct (fmod_sign x2 tau_f Ht) as [Hs2p Hs2n].
  destruct Hc1 as [[Hf1 ->] | [Hf1 ->]]; destruct Hc2 as [[Hf2 ->] | [Hf2 ->]].
  - exact HE.
  - (* x2 < 0, so x1 < 0 and fmod x1 = 0 *)
    assert (Hx2 : x2 < 0) by (destruct (Rlt_dec x2 0); [assumption | exfalso; lra]).
    assert (Hz : PyFloat.fmod x1 tau_f = 0) by (assert (PyFloat.fmod x1 tau_f <= 0) by (apply Hs1n; lra); lra).
    assert (He : euclid x1 = 0).
    { rewrite euclid_py_mod. unfold PyFloat.py_mod. rewrite Hz.
      destruct (Req_dec_T 0 0); [reflexivity | lra]. }
    rewrite He. apply round_nonneg. exact H20.
  - (* x1 < 0 and fmod x2 >= 0 *)
    exfalso.
    assert (Hx1 : x1 < 0) by (destruct (Rlt_dec x1 0); [assumption | exfalso; lra]).
    pose proof (Zfloor_neg x1 Hx1) as Hn.
    destruct (Rle_dec 0 x2) as [Hp | Hp].
    + pose proof (Zfloor_pos x2 Hp). lia.
    + assert (Hz : PyFloat.fmod x2 tau_f = 0) by (assert (PyFloat.fmod x2 tau_f <= 0) by (apply Hs2n; lra); lra).
      assert (He2 : euclid x2 = 0).
      { rewrite euclid_py_mod. unfold PyFloat.py_mod. rewrite Hz.
        destruct (Req_dec_T 0 0); [reflexivity | lra]. }
      assert (He1 : 0 < euclid x1).
      { rewrite euclid_py_mod. unfold PyFloat.py_mod.
        destruct (Req_dec_T (PyFloat.fmod x1 tau_f) 0); [lra |].
        rewrite (Rltb_false tau_f 0), (Rltb_true _ 0 Hf1) by lra. cbn [eqb].
        pose proof (fmod_range x1 tau_f Ht). lra. }
      lra.
  - apply round_le. exact HE.
Qed.

End RemEuclid.

Section NonFiniteArguments.
Import Binary64 Py64 Plottest64.

Lemma phase_huge_A4 :
  fmul (fmul (Fin (bpow 1023)) (Fin 440)) math_tau = PInf.
Proof. rewrite fmul_huge_440. apply fmul_PInf_tau. Qed.

Lemma phase_zero r : fmul (fmul (Fin 0) (Fin r)) math_tau = Fin 0.
Proof. rewrite fmul_0_l. apply fmul_0_l. Qed.

Lemma phase_zero_inf : fmul (fmul (Fin 0) PInf) math_tau = NaN.
Proof.
  cbn [fmul]. unfold inf_times. destruct (Req_dec_T 0 0); [reflexivity | lra].
Qed.

Lemma rem_nonfinite v : is_finite v = false -> rem v math_tau = Ok NaN.
Proof.
  intros Hv. pose proof tau_f_pos as Ht. unfold rem, math_tau.
  rewrite is_zero_Fin by lra.
  assert (Hflt : flt (Fin tau_f) (Fin 0) = false) by (apply Rltb_false; lra).
  rewrite Hflt. destruct v; [discriminate | reflexivity | reflexivity | reflexivity].
Qed.

Lemma saw64_nonfinite n : is_finite n = false -> saw n = Ok NaN.
Proof.
  intros Hn. pose proof pi_f_pos as Hp. unfold saw.
  rewrite rem_nonfinite by (destruct n; [discriminate | reflexivity | reflexivity | reflexivity]).
  cbn [bind]. unfold truediv, math_pi. rewrite is_zero_Fin by lra. reflexivity.
Qed.

Lemma triangle64_nonfinite n : is_finite n = false -> triangle n = Ok NaN.
Proof.
  intros Hn. unfold triangle. rewrite half_pi. cbn [bind].
  rewrite saw64_nonfinite by (destruct n; [discriminate | reflexivity | reflexivity | reflexivity]).
  reflexivity.
Qed.

Lemma square64_NaN L (HL : libm_ok L) : square L NaN = Ok (Fin (-1)).
Proof.
  unfold square. rewrite (math_sin_NaN L HL). cbn [bind fmul]. f_equal.
  apply clamp_neg_one. reflexivity.
Qed.

Lemma square64_0 L (HL : libm_ok L) : square L (Fin 0) = Ok (Fin (-1)).
Proof.
  unfold square. rewrite (math_sin_0 L HL). cbn [bind fmul]. f_equal.
  rewrite Rmult_0_l, fl_0. apply clamp_neg_one. cbn [flt]. apply Rltb_false. lra.
Qed.

End NonFiniteArguments.

Section ConcreteRoundings.
Import Binary64 Py64 Plottest64.




Lemma bpow_m54 : bpow (-54) = / 18014398509481984.
Proof. apply (bpow_neg_IZR 54). lia. Qed.

Lemma bpow_m2 : bpow (-2) = / 4.
Proof. apply (bpow_neg_IZR 2). lia. Qed.

Lemma bpow_m1 : bpow (-1) = / 2.
Proof. apply (bpow_neg_IZR 1). lia. Qed.




Lemma fmul_t_880 : fmul (Fin t_880) (Fin 440) = Fin (1 / 2).
Proof.
  cbn [fmul]. set (x := t_880 * 440).
  assert (He : expo x = (-54)%Z).
  { rewrite (expo_unique x (-2)); [reflexivity |].
    rewrite bpow_m2. replace (-2 + 1)%Z with (-1)%Z by lia. rewrite bpow_m1.
    unfold x, t_880. rewrite Rabs_pos_eq; lra. }
  assert (Hr : round x = 1 / 2).
  { pose proof (round_near x 9007199254740992) as H.
    rewrite He, bpow_m54 in H. rewrite H; [lra |].
    unfold x, t_880.
    replace (2620276146833743 / 2305843009213693952 * 440 -
             9007199254740992 * / 18014398509481984)
      with (- (7 / 288230376151711744)) by lra.
    rewrite Rabs_left; lra. }
  rewrite <- Hr. apply fl_in_range. rewrite Hr. pose proof bpow_1024_big. lra.
Qed.

Lemma saw64_pi : saw (Fin pi_f) = Ok (Fin (-1)).
Proof.
  pose proof pi_f_pos as Hp. pose proof tau_f_pos as Ht.
  unfold saw. cbn [fadd math_pi].
  rewrite (fl_exact (pi_f + pi_f) tau_f 7074237752028440 50);
    [| rewrite tau_f_double; lra | reflexivity | lia | lia].
  unfold rem, math_tau. rewrite is_zero_Fin by lra. cbn [c_fmod].
  destruct (Req_dec_T tau_f 0); [lra |].
  rewrite fmod_self by exact Ht. rewrite is_zero_Fin_0. cbn [bind].
  rewrite truediv_pi. cbn [bind].
  rewrite (fl_exact_int (0 / pi_f) 0); [| field; lra | lia].
  cbn [fsub fneg fadd]. f_equal. apply (fl_exact_int _ (-1)); [lra | lia].
Qed.

Lemma f2_at_0_A4 L (HL : libm_ok L) : f2 L (Fin 0) (Fin 69) = Ok (Fin 0).
Proof.
  unfold f2. rewrite (midi_A4 L HL). cbn [bind]. rewrite phase_zero. exact saw64_0.
Qed.

Lemma f2_at_t_880_A4 L (HL : libm_ok L) : f2 L (Fin t_880) (Fin 69) = Ok (Fin (-1)).
Proof.
  unfold f2. rewrite (midi_A4 L HL). cbn [bind]. rewrite fmul_t_880.
  cbn [fmul math_tau].
  rewrite (fl_exact (1 / 2 * tau_f) pi_f 7074237752028440 51);
    [| rewrite tau_f_double; lra | reflexivity | lia | lia].
  exact saw64_pi.
Qed.

Lemma real_period_t_880 :
  Zfloor ((2 * PI * 0 * Plottest.midi_pitch_to_freq 69 + PI) / (2 * PI)) =
  Zfloor ((2 * PI * t_880 * Plottest.midi_pitch_to_freq 69 + PI) / (2 * PI)).
Proof.
  pose proof PI_RGT_0 as Hpi. rewrite freq_A4.
  replace ((2 * PI * 0 * 440 + PI) / (2 * PI)) with (1 / 2) by (field; lra).
  replace ((2 * PI * t_880 * 440 + PI) / (2 * PI)) with (t_880 * 440 + 1 / 2) by (field; lra).
  rewrite (Zfloor_eq 0 (1 / 2)) by (simpl; lra).
  rewrite (Zfloor_eq 0 (t_880 * 440 + 1 / 2)) by (unfold t_880; simpl; lra).
  reflexivity.
Qed.

End ConcreteRoundings.

Section Inversions.
Import Binary64 Py64 Plottest64.

Lemma fadd_pi_Fin u x :
  fadd u math_pi = Fin x -> exists n, u = Fin n /\ x = round (n + pi_f).
Proof.
  destruct u as [n | | |]; cbn [fadd math_pi]; intros H; try discriminate.
  exists n. split; [reflexivity | apply fl_Fin_round; exact H].
Qed.

Lemma inf_times_not_Fin i y x :
  is_finite i = false -> inf_times i y <> Fin x.
Proof.
  intros Hi. unfold inf_times.
  destruct (Req_dec_T y 0); [discriminate |].
  destruct (Rlt_dec 0 y); destruct i; try discriminate.
Qed.

Lemma fmul_tau_Fin u n :
  fmul u math_tau = Fin n -> exists a, u = Fin a /\ n = round (a * tau_f).
Proof.
  destruct u as [a | | |]; cbn [fmul math_tau]; intros H.
  - exists a. split; [reflexivity | apply fl_Fin_round; exact H].
  - exfalso. apply (inf_times_not_Fin PInf tau_f n); [reflexivity | exact H].
  - exfalso. apply (inf_times_not_Fin NInf tau_f n); [reflexivity | exact H].
  - discriminate.
Qed.

(** A finite fold argument is the thrice rounded phase plus [math.pi]. *)
Lemma fold_arg_Fin L (HL : libm_ok L) t p x :
  fold_arg L (Fin t) (Fin p) = Ok (Fin x) ->
  exists r, midi_pitch_to_freq L (Fin p) = Ok (Fin r) /\ 0 <= r /\
            fadd (fmul (fmul (Fin t) (Fin r)) math_tau) math_pi = Fin x /\
            x = round (round (round (t * r) * tau_f) + pi_f).
Proof.
  unfold fold_arg.
  destruct (midi_cases L HL p) as [E | [E | [r [E Hr]]]]; rewrite E; cbn [bind]; intros H.
  - discriminate.
  - injection H as H. apply fadd_pi_Fin in H as [n [Hn _]].
    apply fmul_tau_Fin in Hn as [a [Ha _]].
    exfalso. revert Ha. apply (inf_times_not_Fin PInf t a). reflexivity.
  - injection H as H. exists r. split; [reflexivity |]. split; [exact Hr |].
    split; [exact H |].
    apply fadd_pi_Fin in H as [n [Hn ->]].
    apply fmul_tau_Fin in Hn as [a [Ha ->]].
    apply fl_Fin_round in Ha. rewrite Ha. reflexivity.
Qed.

Lemma f2_nondecreasing L (HL : libm_ok L) p t1 t2 x1 x2 :
  t1 <= t2 ->
  fold_arg L (Fin t1) (Fin p) = Ok (Fin x1) ->
  fold_arg L (Fin t2) (Fin p) = Ok (Fin x2) ->
  Zfloor (x1 / tau_f) = Zfloor (x2 / tau_f) ->
  exists s1 s2,
    f2 L (Fin t1) (Fin p) = Ok (Fin s1) /\
    f2 L (Fin t2) (Fin p) = Ok (Fin s2) /\ s1 <= s2.
Proof.
  intros Ht H1 H2 Hk. pose proof tau_f_pos as Htau. pose proof pi_f_pos as Hpi.
  destruct (fold_arg_Fin L HL t1 p x1 H1) as [r [E [Hr [F1 X1]]]].
  destruct (fold_arg_Fin L HL t2 p x2 H2) as [r' [E' [_ [F2 X2]]]].
  rewrite E in E'. injection E' as <-.
  assert (Hx : x1 <= x2).
  { rewrite X1, X2. apply round_le. apply Rplus_le_compat_r. apply round_le.
    apply Rmult_le_compat_r; [lra |]. apply round_le.
    apply Rmult_le_compat_r; [exact Hr | exact Ht]. }
  destruct (rem_monotone x1 x2 Hx Hk) as [m1 [m2 [R1' [R2' [B1 [B2 Hm]]]]]].
  exists (round (round (m1 / pi_f) + - (1))), (round (round (m2 / pi_f) + - (1))).
  unfold f2. rewrite E. cbn [bind]. repeat split.
  - apply saw_of_rem; [rewrite F1; exact R1' | exact B1].
  - apply saw_of_rem; [rewrite F2; exact R2' | exact B2].
  - apply round_le. apply Rplus_le_compat_r. apply round_le.
    unfold Rdiv. apply Rmult_le_compat_r; [left; apply Rinv_0_lt_compat; exact Hpi | exact Hm].
Qed.

End Inversions.

Section SampleTimes.
Import Binary64 Py64 Plottest64.

Lemma fl_round_between lo hi x :
  round lo = lo -> round hi = hi -> - bpow 1024 < lo -> hi < bpow 1024 ->
  lo <= x <= hi -> fl x = Fin (round x) /\ lo <= round x <= hi.
Proof.
  intros Hlo Hhi Hl Hh Hx.
  destruct (fl_between lo hi x Hlo Hhi Hl Hh Hx) as [r [Hr Hb]].
  pose proof (fl_Fin_round x r Hr) as E. subst r. split; assumption.
Qed.

Lemma fold_arg_0_A4 : fold_arg libm_cr (Fin 0) (Fin 69) = Ok (Fin pi_f).
Proof.
  unfold fold_arg. rewrite (midi_A4 libm_cr libm_cr_ok). cbn [bind].
  rewrite phase_zero. cbn [fadd math_pi]. f_equal.
  apply (fl_exact (0 + pi_f) pi_f 7074237752028440 51); [lra | reflexivity | lia | lia].
Qed.

Lemma fold_arg_1024_A4 :
  fold_arg libm_cr (Fin (1 / 1024)) (Fin 69) = Ok (Fin x_1024) /\
  pi_f <= x_1024 <= 25 / 4.
Proof.
  pose proof bpow_1024_big as Hbig. pose proof pi_f_pos as Hp.
  assert (R0 : round 0 = 0) by apply round_0.
  assert (R716 : round (7 / 16) = 7 / 16) by (apply (round_dyadic 7 4); lia).
  assert (R3 : round 3 = 3) by (apply (round_int 3); lia).
  assert (R254 : round (25 / 4) = 25 / 4) by (apply (round_dyadic 25 2); lia).
  destruct (fl_round_between 0 (7 / 16) (1 / 1024 * 440)) as [Fa Ba]; try assumption; try lra.
  destruct (fl_round_between 0 3 (round (1 / 1024 * 440) * tau_f)) as [Fn Bn];
    try assumption; try lra.
  { unfold tau_f in *. split; nra. }
  destruct (fl_round_between pi_f (25 / 4)
              (round (round (1 / 1024 * 440) * tau_f) + pi_f)) as [Fx Bx];
    try assumption; try lra.
  { apply round_pi_f. }
  { unfold pi_f in *. lra. }
  split; [| exact Bx].
  unfold fold_arg. rewrite (midi_A4 libm_cr libm_cr_ok). cbn [bind fmul math_tau].
  rewrite Fa. cbn [fmul math_tau]. rewrite Fn. cbn [fadd math_pi]. rewrite Fx. reflexivity.
Qed.

Lemma same_period_1024 : Zfloor (pi_f / tau_f) = Zfloor (x_1024 / tau_f).
Proof.
  destruct fold_arg_1024_A4 as [_ [Hlo Hhi]].
  pose proof pi_f_pos as Hp. pose proof tau_f_pos as Ht.
  assert (Hq : forall x, pi_f <= x <= 25 / 4 -> Zfloor (x / tau_f) = 0%Z).
  { intros x [H1 H2]. apply Zfloor_eq. simpl. split.
    - apply Rmult_le_pos; [lra | left; apply Rinv_0_lt_compat; exact Ht].
    - apply Rmult_lt_reg_r with tau_f; [exact Ht |].
      unfold Rdiv. rewrite Rmult_assoc, Rinv_l by lra. unfold tau_f in *. lra. }
  rewrite (Hq pi_f), (Hq x_1024); [reflexivity | lra | unfold pi_f; lra].
Qed.

End SampleTimes.

Section Ramp.
Import Binary64 Py64 Plottest64.

(** Between the clamp bounds the square fold is the scaled sine minus
    one. *)
Lemma square64_ramp L n s v :
  math_sin L n = Ok (Fin s) -> fmul (Fin s) (Fin 100) = Fin v -> 0 < v < 2 ->
  square L n = Ok (fsub (Fin v) (Fin 1)).
Proof.
  intros Hs Hv [H0 H2]. unfold square. rewrite Hs. cbn [bind]. rewrite Hv.
  unfold builtin_max. cbn [flt]. rewrite (Rltb_true 0 v H0).
  unfold builtin_min. cbn [flt]. rewrite (Rltb_true v 2 H2). reflexivity.
Qed.

(** The sample at [t = 2^-18], pitch 69, lies on the ramp. *)
Lemma ramp_sample L (HL : libm_ok L) :
  exists s v,
    math_sin L (fmul (fmul (Fin (1 / 262144)) (Fin 440)) math_tau) = Ok (Fin s) /\
    fmul (Fin s) (Fin 100) = Fin v /\ 1 / 32 <= v <= 25 / 16 /\
    exists r, f3 L (Fin (1 / 262144)) (Fin 69) = Ok (Fin r) /\
              r = round (v - 1) /\ - (31 / 32) <= r <= 9 / 16.
Proof.
  pose proof bpow_1024_big as Hbig.
  assert (Ha : fmul (Fin (1 / 262144)) (Fin 440) = Fin (55 / 32768)).
  { cbn [fmul]. apply (fl_exact _ _ 55 15); [lra | reflexivity | lia | lia]. }
  assert (R128 : round (1 / 128) = 1 / 128) by (apply (round_dyadic 1 7); lia).
  assert (R64 : round (1 / 64) = 1 / 64) by (apply (round_dyadic 1 6); lia).
  assert (R32 : round (1 / 32) = 1 / 32) by (apply (round_dyadic 1 5); lia).
  assert (R2516 : round (25 / 16) = 25 / 16) by (apply (round_dyadic 25 4); lia).
  assert (R3132 : round (- (31 / 32)) = - (31 / 32)).
  { rewrite round_opp. f_equal. apply (round_dyadic 31 5); lia. }
  assert (R916 : round (9 / 16) = 9 / 16) by (apply (round_dyadic 9 4); lia).
  destruct (fl_round_between (1 / 128) (1 / 64) (55 / 32768 * tau_f)) as [Fn Bn];
    try assumption; try lra.
  { unfold tau_f. lra. }
  set (n := round (55 / 32768 * tau_f)) in *.
  assert (Hph : fmul (fmul (Fin (1 / 262144)) (Fin 440)) math_tau = Fin n).
  { rewrite Ha. cbn [fmul math_tau]. exact Fn. }
  destruct (sin_finite L HL n) as [s [Hc _]].
  assert (Hsb : 1 / 2048 <= s <= 1 / 64) by (apply (sin_small L HL n s); [lra | exact Hc]).
  assert (Hms : math_sin L (Fin n) = Ok (Fin s)).
  { unfold math_sin. rewrite Hc. reflexivity. }
  destruct (fl_round_between (1 / 32) (25 / 16) (s * 100)) as [Fv Bv];
    try assumption; try lra.
  set (v := round (s * 100)) in *.
  destruct (fl_round_between (- (31 / 32)) (9 / 16) (v + - (1))) as [Fr Br];
    try assumption; try lra.
  exists s, v. rewrite Hph. split; [exact Hms |]. split; [exact Fv |].
  split; [exact Bv |].
  exists (round (v + - (1))). split.
  - unfold f3. rewrite (midi_A4 L HL). cbn [bind]. rewrite Hph.
    rewrite (square64_ramp L (Fin n) s v Hms Fv) by lra.
    cbn [fsub fneg fadd]. rewrite Fr. reflexivity.
  - split; [reflexivity | exact Br].
Qed.

End Ramp.

(** ** The clamp of the square wave, on the real-number reading *)

Section ClampOnReals.
Import PyFloat Plottest.

(** C3, as stated: some [t] and [p] give a square-wave output outside
    [[-1, 1]].  The clamp excludes it. *)
Theorem f3_no_excursion_exists :
  ~ (exists t p : R, f3 t p < -1 \/ 1 < f3 t p).
Proof.
  intros [t [p H]]. unfold f3 in H.
  pose proof (square_range (t * midi_pitch_to_freq p * tau)). lra.
Qed.

(** C3, amended: for no real [t] and pitch [p] does the square-wave output
    lie outside the target range [[-1, 1]]. *)
Theorem f3_never_outside_target_range :
  forall t p : R, ~ (f3 t p < -1 \/ 1 < f3 t p).
Proof.
  intros t p H. unfold f3 in H.
  pose proof (square_range (t * midi_pitch_to_freq p * tau)). lra.
Qed.

End ClampOnReals.

(** ** The claims on binary64 *)

Section ClaimsOnDoubles.
Import Binary64 Py64 Plottest64.

(** C1, as stated: the frequency is positive for every pitch.  At pitch
    12357 the power overflows and the call raises [OverflowError]; at
    pitch -13131 the power underflows and the frequency is 0.0.  No C
    library meeting the assumptions makes the statement true. *)
Theorem midi_pitch_to_freq_not_positive_everywhere :
  (forall L, libm_ok L ->
     midi_pitch_to_freq L (Fin 12357) = Raise OverflowError /\
     midi_pitch_to_freq L (Fin (-13131)) = Ok (Fin 0)) /\
  ~ (exists L, libm_ok L /\
       forall p, exists v, midi_pitch_to_freq L (Fin p) = Ok v /\ flt (Fin 0) v = true).
Proof.
  split.
  - intros L HL. split; [apply midi_overflow | apply midi_underflow]; exact HL.
  - intros [L [HL H]]. destruct (H 12357) as [v [Hv _]].
    rewrite (midi_overflow L HL) in Hv. discriminate.
Qed.

(** C1, amended: pitch 69 gives exactly 440.0; for every finite pitch the
    call is the double product of the power [2 ** ((p - 69) / 12.0)] and
    440.0, and it raises [OverflowError], returns [+inf], or returns a
    double that is not negative; from pitch -12195 upwards a returned
    frequency is positive. *)
Theorem midi_pitch_to_freq_on_doubles (L : Libm) (HL : libm_ok L) :
  midi_pitch_to_freq L (Fin 69) = Ok (Fin 440) /\
  (forall p,
      midi_pitch_to_freq L (Fin p) =
      bind (pow2 L (exponent_of p)) (fun pw => Ok (fmul pw (Fin 440)))) /\
  (forall p,
      midi_pitch_to_freq L (Fin p) = Raise OverflowError \/
      midi_pitch_to_freq L (Fin p) = Ok PInf \/
      exists r, midi_pitch_to_freq L (Fin p) = Ok (Fin r) /\ 0 <= r) /\
  (forall p v,
      -12195 <= p -> midi_pitch_to_freq L (Fin p) = Ok v -> flt (Fin 0) v = true).
Proof.
  split; [apply midi_A4; exact HL |].
  split; [intros p; apply midi_unfold |].
  split; [intros p; apply midi_cases; exact HL |].
  intros p v. apply midi_positive. exact HL.
Qed.

Lemma midi_pitch_to_freq_on_doubles_witness :
  libm_ok libm_cr /\
  midi_pitch_to_freq libm_cr (Fin 69) = Ok (Fin 440) /\
  -12195 <= 69 /\
  flt (Fin 0) (Fin 440) = true.
Proof.
  split; [exact libm_cr_ok |].
  assert (H69 : -12195 <= 69) by lra.
  pose proof (midi_pitch_to_freq_on_doubles libm_cr libm_cr_ok) as [HA [_ [_ HP]]].
  split; [exact HA |]. split; [exact H69 |].
  exact (HP 69 (Fin 440) H69 HA).
Defined.







(** C5, as stated: the sine wave lies in [[-1, 1]] for every [t] and
    [p].  At [t = 2^1023], [p = 69] the phase overflows to [+inf] and
    [math.sin] raises [ValueError]. *)
Theorem f_not_total :
  (forall L, libm_ok L -> f L (Fin (bpow 1023)) (Fin 69) = Raise ValueError) /\
  ~ (exists L, libm_ok L /\
       forall t p, exists s, f L (Fin t) (Fin p) = Ok (Fin s) /\ -1 <= s <= 1).
Proof.
  assert (Hc : forall L, libm_ok L -> f L (Fin (bpow 1023)) (Fin 69) = Raise ValueError).
  { intros L HL. unfold f. rewrite (midi_A4 L HL). cbn [bind].
    rewrite phase_huge_A4. apply math_sin_PInf. exact HL. }
  split; [exact Hc |].
  intros [L [HL H]]. destruct (H (bpow 1023) 69) as [s [Hs _]].
  rewrite (Hc L HL) in Hs. discriminate.
Qed.

(** C5, amended: for every finite [t] and [p] the sine wave is
    [math.sin] of the double phase [t * frequency * math.tau]: it raises
    [OverflowError] when the power overflows, raises [ValueError] when
    the phase is infinite, is a NaN when the phase is a NaN, and
    otherwise is the library sine of the phase, in [[-1, 1]]. *)
Theorem f_sine_on_doubles (L : Libm) (HL : libm_ok L) (t p : R) :
  (midi_pitch_to_freq L (Fin p) = Raise OverflowError /\
   f L (Fin t) (Fin p) = Raise OverflowError) \/
  exists fr,
    midi_pitch_to_freq L (Fin p) = Ok fr /\
    match fmul (fmul (Fin t) fr) math_tau with
    | Fin x =>
        exists s, f L (Fin t) (Fin p) = Ok (Fin s) /\
                  c_sin L (Fin x) = Fin s /\ -1 <= s <= 1
    | NaN => f L (Fin t) (Fin p) = Ok NaN
    | PInf | NInf => f L (Fin t) (Fin p) = Raise ValueError
    end.
Proof.
  unfold f.
  assert (Hs : forall fr,
             match fmul (fmul (Fin t) fr) math_tau with
             | Fin x =>
                 exists s, math_sin L (fmul (fmul (Fin t) fr) math_tau) = Ok (Fin s) /\
                           c_sin L (Fin x) = Fin s /\ -1 <= s <= 1
             | NaN => math_sin L (fmul (fmul (Fin t) fr) math_tau) = Ok NaN
             | PInf | NInf =>
                 math_sin L (fmul (fmul (Fin t) fr) math_tau) = Raise ValueError
             end).
  { intros fr. destruct (fmul (fmul (Fin t) fr) math_tau) as [x | | |].
    - destruct (sin_finite L HL x) as [s [Hc Hb]]. exists s.
      unfold math_sin. rewrite Hc. cbn. repeat split; try reflexivity; lra.
    - apply math_sin_PInf. exact HL.
    - apply math_sin_NInf. exact HL.
    - apply math_sin_NaN. exact HL. }
  destruct (midi_cases L HL p) as [E | [E | [r [E _]]]]; rewrite E; cbn [bind].
  - left. split; reflexivity.
  - right. exists PInf. split; [reflexivity | apply Hs].
  - right. exists (Fin r). split; [reflexivity | apply Hs].
Qed.

Lemma f_sine_on_doubles_witness :
  libm_ok libm_cr /\
  ((midi_pitch_to_freq libm_cr (Fin 69) = Raise OverflowError /\
    f libm_cr (Fin (1 / 1024)) (Fin 69) = Raise OverflowError) \/
   exists fr,
     midi_pitch_to_freq libm_cr (Fin 69) = Ok fr /\
     match fmul (fmul (Fin (1 / 1024)) fr) math_tau with
     | Fin x =>
         exists s, f libm_cr (Fin (1 / 1024)) (Fin 69) = Ok (Fin s) /\
                   c_sin libm_cr (Fin x) = Fin s /\ -1 <= s <= 1
     | NaN => f libm_cr (Fin (1 / 1024)) (Fin 69) = Ok NaN
     | PInf | NInf => f libm_cr (Fin (1 / 1024)) (Fin 69) = Raise ValueError
     end).
Proof.
  split; [exact libm_cr_ok |].
  exact (f_sine_on_doubles libm_cr libm_cr_ok (1 / 1024) 69).
Defined.




(** C8, as stated: for [t1 < t2] in one period of the real phase the
    sawtooth is strictly larger at [t2].  At pitch 69, [t1 = 0] and [t2]
    the double nearest to 1/880, both real phases lie in the same period,
    yet the sawtooth is 0.0 at [t1] and -1.0 at [t2]. *)
Theorem f2_not_increasing_within_period :
  0 < t_880 /\
  Zfloor ((2 * PI * 0 * Plottest.midi_pitch_to_freq 69 + PI) / (2 * PI)) =
  Zfloor ((2 * PI * t_880 * Plottest.midi_pitch_to_freq 69 + PI) / (2 * PI)) /\
  (forall L, libm_ok L ->
     f2 L (Fin 0) (Fin 69) = Ok (Fin 0) /\
     f2 L (Fin t_880) (Fin 69) = Ok (Fin (-1))) /\
  ~ (exists L, libm_ok L /\
       forall p t1 t2, t1 < t2 ->
         Zfloor ((2 * PI * t1 * Plottest.midi_pitch_to_freq p + PI) / (2 * PI)) =
         Zfloor ((2 * PI * t2 * Plottest.midi_pitch_to_freq p + PI) / (2 * PI)) ->
         exists s1 s2,
           f2 L (Fin t1) (Fin p) = Ok (Fin s1) /\
           f2 L (Fin t2) (Fin p) = Ok (Fin s2) /\ s1 < s2).
Proof.
  assert (Ht : 0 < t_880) by (unfold t_880; lra).
  split; [exact Ht |]. split; [exact real_period_t_880 |].
  split.
  - intros L HL. split; [apply f2_at_0_A4 | apply f2_at_t_880_A4]; exact HL.
  - intros [L [HL H]].
    destruct (H 69 0 t_880 Ht real_period_t_880) as [s1 [s2 [H1 [H2 Hlt]]]].
    rewrite (f2_at_0_A4 L HL) in H1. rewrite (f2_at_t_880_A4 L HL) in H2.
    injection H1 as <-. injection H2 as <-. lra.
Qed.

(** C8, amended: for finite [t1 <= t2] and a pitch [p] whose computed
    fold arguments (the double phase plus [math.pi]) are finite and lie in
    the same period of [%], that is have the same [floor(x / math.tau)],
    both sawtooth samples are returned and the one at [t2] is not smaller:
    within a period of the computed fold argument the ramp is
    non-decreasing. *)
Theorem f2_nondecreasing_within_period
        (L : Libm) (HL : libm_ok L) (p t1 t2 x1 x2 : R) :
  t1 <= t2 ->
  fold_arg L (Fin t1) (Fin p) = Ok (Fin x1) ->
  fold_arg L (Fin t2) (Fin p) = Ok (Fin x2) ->
  Zfloor (x1 / tau_f) = Zfloor (x2 / tau_f) ->
  exists s1 s2,
    f2 L (Fin t1) (Fin p) = Ok (Fin s1) /\
    f2 L (Fin t2) (Fin p) = Ok (Fin s2) /\ s1 <= s2.
Proof. apply f2_nondecreasing. exact HL. Qed.

Lemma f2_nondecreasing_within_period_witness :
  libm_ok libm_cr /\ 0 <= 1 / 1024 /\
  fold_arg libm_cr (Fin 0) (Fin 69) = Ok (Fin pi_f) /\
  fold_arg libm_cr (Fin (1 / 1024)) (Fin 69) = Ok (Fin x_1024) /\
  Zfloor (pi_f / tau_f) = Zfloor (x_1024 / tau_f) /\
  exists s1 s2,
    f2 libm_cr (Fin 0) (Fin 69) = Ok (Fin s1) /\
    f2 libm_cr (Fin (1 / 1024)) (Fin 69) = Ok (Fin s2) /\ s1 <= s2.
Proof.
  assert (Ht : 0 <= 1 / 1024) by lra.
  split; [exact libm_cr_ok |]. split; [exact Ht |].
  split; [exact fold_arg_0_A4 |]. split; [exact (proj1 fold_arg_1024_A4) |].
  split; [exact same_period_1024 |].
  exact (f2_nondecreasing_within_period libm_cr libm_cr_ok 69 0 (1 / 1024) pi_f x_1024
           Ht fold_arg_0_A4 (proj1 fold_arg_1024_A4) same_period_1024).
Defined.




(** C10, as stated: at time 0 the sawtooth and the triangle are 0 and the
    square is -1 for every pitch.  At pitch 12357 the power overflows and
    all three calls raise [OverflowError]. *)
Theorem waveforms_at_time_zero_not_for_every_pitch :
  (forall L, libm_ok L ->
     f2 L (Fin 0) (Fin 12357) = Raise OverflowError /\
     f4 L (Fin 0) (Fin 12357) = Raise OverflowError /\
     f3 L (Fin 0) (Fin 12357) = Raise OverflowError) /\
  ~ (exists L, libm_ok L /\
       forall p,
         f2 L (Fin 0) (Fin p) = Ok (Fin 0) /\
         f4 L (Fin 0) (Fin p) = Ok (Fin 0) /\
         f3 L (Fin 0) (Fin p) = Ok (Fin (-1))).
Proof.
  assert (Hc : forall L, libm_ok L -> f2 L (Fin 0) (Fin 12357) = Raise OverflowError).
  { intros L HL. unfold f2. rewrite (midi_overflow L HL). reflexivity. }
  split.
  - intros L HL. unfold f2, f3, f4. rewrite (midi_overflow L HL). repeat split.
  - intros [L [HL H]]. destruct (H 12357) as [H2 _].
    rewrite (Hc L HL) in H2. discriminate.
Qed.

(** C10, amended: at time 0, for every finite pitch whose frequency is a
    finite double, the sawtooth, the triangle and the sine are exactly 0
    and the square is exactly -1; when the frequency is [+inf] the phase
    [0 * inf] is a NaN, so sawtooth, triangle and sine are NaN and the
    square is still -1; when the power overflows all four raise
    [OverflowError].  -1 is the least value the square wave returns. *)
Theorem waveforms_at_time_zero_on_doubles (L : Libm) (HL : libm_ok L) :
  (forall p,
     ((exists r, midi_pitch_to_freq L (Fin p) = Ok (Fin r)) /\
      f2 L (Fin 0) (Fin p) = Ok (Fin 0) /\
      f4 L (Fin 0) (Fin p) = Ok (Fin 0) /\
      f3 L (Fin 0) (Fin p) = Ok (Fin (-1)) /\
      f L (Fin 0) (Fin p) = Ok (Fin 0)) \/
     (midi_pitch_to_freq L (Fin p) = Ok PInf /\
      f2 L (Fin 0) (Fin p) = Ok NaN /\
      f4 L (Fin 0) (Fin p) = Ok NaN /\
      f3 L (Fin 0) (Fin p) = Ok (Fin (-1)) /\
      f L (Fin 0) (Fin p) = Ok NaN) \/
     (midi_pitch_to_freq L (Fin p) = Raise OverflowError /\
      f2 L (Fin 0) (Fin p) = Raise OverflowError /\
      f4 L (Fin 0) (Fin p) = Raise OverflowError /\
      f3 L (Fin 0) (Fin p) = Raise OverflowError /\
      f L (Fin 0) (Fin p) = Raise OverflowError)) /\
  (forall t q v, f3 L (Fin t) (Fin q) = Ok v -> exists r, v = Fin r /\ -1 <= r).
Proof.
  split.
  - intros p. unfold f2, f3, f4, f.
    destruct (midi_cases L HL p) as [E | [E | [r [E _]]]]; rewrite E; cbn [bind].
    + right; right. repeat split.
    + right; left. rewrite phase_zero_inf. repeat split.
      * apply saw64_nonfinite. reflexivity.
      * apply triangle64_nonfinite. reflexivity.
      * apply square64_NaN. exact HL.
      * apply math_sin_NaN. exact HL.
    + left. rewrite phase_zero. repeat split.
      * exists r. reflexivity.
      * exact saw64_0.
      * exact triangle64_0.
      * apply square64_0. exact HL.
      * apply math_sin_0. exact HL.
  - intros t q v. unfold f3.
    destruct (midi_cases L HL q) as [E | [E | [r [E _]]]]; rewrite E; cbn [bind];
      try discriminate;
      match goal with
      | |- square L ?n = _ -> _ =>
          destruct (square64_range L HL n) as [-> | [r' [-> Hr']]];
          [discriminate | intros H; injection H as <-; exists r'; split; [reflexivity | lra]]
      end.
Qed.

Lemma waveforms_at_time_zero_on_doubles_witness :
  libm_ok libm_cr /\
  f2 libm_cr (Fin 0) (Fin 69) = Ok (Fin 0) /\
  f3 libm_cr (Fin 0) (Fin 69) = Ok (Fin (-1)) /\
  exists r, Fin (-1) = Fin r /\ -1 <= r.
Proof.
  split; [exact libm_cr_ok |].
  pose proof (waveforms_at_time_zero_on_doubles libm_cr libm_cr_ok) as [H0 Hmin].
  assert (H2 : f2 libm_cr (Fin 0) (Fin 69) = Ok (Fin 0))
    by exact (f2_at_0_A4 libm_cr libm_cr_ok).
  assert (H3 : f3 libm_cr (Fin 0) (Fin 69) = Ok (Fin (-1))).
  { unfold f3. rewrite (midi_A4 libm_cr libm_cr_ok). cbn [bind].
    rewrite phase_zero. apply square64_0. exact libm_cr_ok. }
  split; [exact H2 |]. split; [exact H3 |].
  exact (Hmin 0 69 (Fin (-1)) H3).
Defined.

(** C7: at [t = 2^-18] and pitch 69 the scaled sine [sin(phase) * 100.0]
    lies strictly between 0 and 2, neither clamp bound is reached, and
    the square wave is the scaled sine minus one, strictly between -1 and
    1; and wherever the scaled sine lies strictly between 0 and 2 the
    square fold returns the scaled sine minus one: a ramp that follows the
    sine, not a jump between the two levels. *)
Theorem f3_finite_slope_ramp :
  (forall L, libm_ok L ->
     exists s v r,
       math_sin L (fmul (fmul (Fin (1 / 262144)) (Fin 440)) math_tau) = Ok (Fin s) /\
       fmul (Fin s) (Fin 100) = Fin v /\ 0 < v < 2 /\
       f3 L (Fin (1 / 262144)) (Fin 69) = Ok (Fin r) /\
       r = round (v - 1) /\ -1 < r < 1) /\
  (forall L n s v,
     math_sin L n = Ok (Fin s) -> fmul (Fin s) (Fin 100) = Fin v -> 0 < v < 2 ->
     square L n = Ok (fsub (Fin v) (Fin 1))) /\
  (forall L t p fr s v,
     midi_pitch_to_freq L (Fin p) = Ok fr ->
     math_sin L (fmul (fmul (Fin t) fr) math_tau) = Ok (Fin s) ->
     fmul (Fin s) (Fin 100) = Fin v -> 0 < v < 2 ->
     f3 L (Fin t) (Fin p) = Ok (fsub (Fin v) (Fin 1))).
Proof.
  split; [| split].
  - intros L HL.
    destruct (ramp_sample L HL) as [s [v [Hs [Hv [Hb Hr]]]]].
    destruct Hr as [r [Hf3 [Hr Hrb]]].
    exists s, v, r. repeat split; try assumption; lra.
  - intros L n s v Hs Hv Hb. apply (square64_ramp L n s v); assumption.
  - intros L t p fr s v Hm Hs Hv Hb. unfold f3. rewrite Hm. cbn [bind].
    apply (square64_ramp L _ s v); assumption.
Qed.

End ClaimsOnDoubles.

(** ** Further properties, on the real-number reading *)

Section FurtherProperties.
Import PyFloat Plottest.


(** X6: the square fold is monotone in the underlying sine: a larger sine
    never gives a smaller output. *)
Theorem square_monotone_in_sine (a b : R) :
  sin a <= sin b -> square a <= square b.
Proof.
  intros H. unfold square, py_max, py_min.
  destruct (Rlt_dec 0 (sin a * 100)); destruct (Rlt_dec 0 (sin b * 100));
    repeat match goal with
           | |- context [Rlt_dec ?x ?y] => destruct (Rlt_dec x y)
           end; lra.
Qed.

Lemma square_monotone_in_sine_witness :
  sin 0 <= sin (1 / 100) /\ square 0 <= square (1 / 100).
Proof.
  assert (H : sin 0 <= sin (1 / 100)).
  { rewrite sin_0. pose proof sin_hundredth. lra. }
  split; [exact H |].
  apply (square_monotone_in_sine 0 (1 / 100)). exact H.
Defined.


End FurtherProperties.
